(** * s3verify: request builders, response verifiers and the fan-out /
    aggregation loops of the conformance tests, embedded from the Go sources
    put-object.go, get-object-if-match.go, get-object-if-modified-since.go,
    get-object-range.go and the three files whose names the sources do not
    give: the upload-part file (unnamed/part_000), the
    get-object-if-none-match file (unnamed/part_001) and the remove-object
    file (unnamed/part_002).

    Go values are modelled as follows.  [int] and [int64] are [Z]; slice
    indices and loop counters that the source obtains from [range] or [len]
    are [nat]; [[]byte] is [list byte]; [string] is [string]; an [error] that
    may be [nil] is [option error]; a [(value, error)] pair is
    [error + value]; [http.Header] and [url.Values] are reference objects and
    live in a store of finite maps.  A goroutine body is a process that
    leaves a trace of events; the receiving loop of a test reads the
    messages in the order in which the channel delivers them.  The calls
    that only draw on the console ([scanBar], [printMessage]) are left out,
    except that a loop records the error it hands to [printMessage]. *)

From stdpp Require Import gmap strings list fin_maps.
From Stdlib Require Import ZArith Lia DecimalString DecimalZ.
From Stdlib.Strings Require Import Byte Ascii String.

Local Open Scope string_scope.

(** ** Errors *)

(** An argument of a [fmt.Errorf] call. *)
Inductive arg : Type :=
  | VInt (z : Z)
  | VStr (s : string)
  | VBytes (b : list byte).

(** A Go [error] value: either built in this package by [fmt.Errorf] (format
    string and arguments kept apart), or handed over by a collaborator
    (transport, decoder, digest, header validator). *)
Inductive error : Type :=
  | Errorf (format : string) (args : list arg)
  | Opaque (msg : string).

(** [cont >>? k]: the Go idiom [if err := c; err != nil { return err }; k]. *)
Definition failFirst (c k : option error) : option error :=
  match c with
  | Some e => Some e
  | None => k
  end.

Notation "c >>? k" := (failFirst c k) (at level 62, right associativity).

#[global] Instance byte_eq_decision : EqDecision byte := byte_eq_dec.

(** [bytes.Equal]. *)
Definition bytesEqual (a b : list byte) : bool :=
  bool_decide (a = b).

(** ** net/http values *)

Module Http.

Definition isLower (c : ascii) : bool :=
  (97 <=? nat_of_ascii c)%nat && (nat_of_ascii c <=? 122)%nat.

Definition isUpper (c : ascii) : bool :=
  (65 <=? nat_of_ascii c)%nat && (nat_of_ascii c <=? 90)%nat.

Definition isDigit (c : ascii) : bool :=
  (48 <=? nat_of_ascii c)%nat && (nat_of_ascii c <=? 57)%nat.

Definition toUpper (c : ascii) : ascii :=
  if isLower c then ascii_of_nat (nat_of_ascii c - 32) else c.

Definition toLower (c : ascii) : ascii :=
  if isUpper c then ascii_of_nat (nat_of_ascii c + 32) else c.

(** The token characters of a header field name. *)
Definition validHeaderFieldByte (c : ascii) : bool :=
  isLower c || isUpper c || isDigit c
  || bool_decide (c ∈ list_ascii_of_string "!#$%&'*+-.^_`|~").

Fixpoint canonicalize (upper : bool) (s : string) : string :=
  match s with
  | EmptyString => EmptyString
  | String c rest =>
      let c' := if upper then toUpper c else toLower c in
      String c' (canonicalize (Ascii.eqb c' "-") rest)
  end.

(** [textproto.CanonicalMIMEHeaderKey]: the first letter and every letter
    after a hyphen in upper case, the others in lower case; a key that holds
    a byte outside the token characters is returned as it is. *)
Definition CanonicalMIMEHeaderKey (s : string) : string :=
  if forallb validHeaderFieldByte (list_ascii_of_string s)
  then canonicalize true s
  else s.

(** The contents of an [http.Header] or [url.Values] map. *)
Abbreviation Values := (gmap string (list string)).

(** [Header.Set] on the contents: one value under the canonical key. *)
Definition headerSet (h : Values) (key value : string) : Values :=
  <[CanonicalMIMEHeaderKey key := [value]]> h.

(** [Header.Get]: the first value under the canonical key, or the empty
    string. *)
Definition headerGet (h : Values) (key : string) : string :=
  match h !! CanonicalMIMEHeaderKey key with
  | Some (v :: _) => v
  | _ => ""
  end.

(** [url.Values.Set]: one value under the key as given. *)
Definition valuesSet (v : Values) (key value : string) : Values :=
  <[key := [value]]> v.

(** A response body stream: the bytes it yields when read to the end, and
    the failure the read ends with (if any). *)
Record Reader : Type := mkReader {
  pending : list byte;
  fault : option error;
}.

(** [ioutil.ReadAll]. *)
Definition ReadAll (r : Reader) : list byte * option error :=
  (pending r, fault r).

(** The fields of [http.Response] that the verifiers read. *)
Record Response : Type := mkResponse {
  Status : string;
  StatusCode : Z;
  Header : Values;
  Body : Reader;
}.

Definition StatusOK : Z := 200.
Definition StatusNoContent : Z := 204.
Definition StatusPartialContent : Z := 206.
Definition StatusNotModified : Z := 304.

End Http.

Module Minio.

(** [minio.ErrorResponse], the decoded error document. *)
Record ErrorResponse : Type := mkErrorResponse {
  Code : string;
  Message : string;
  BucketName : string;
  Key : string;
  RequestID : string;
  HostID : string;
}.

End Minio.

(** ** Encoders of the Go standard library *)

Definition hexDigit (n : N) : ascii :=
  match list_ascii_of_string "0123456789abcdef" !! N.to_nat n with
  | Some c => c
  | None => "0"%char
  end.

(** [hex.EncodeToString]: two lower-case digits per byte. *)
Fixpoint hexEncodeToString (b : list byte) : string :=
  match b with
  | [] => EmptyString
  | x :: rest =>
      String (hexDigit (N.div (Byte.to_N x) 16))
        (String (hexDigit (N.modulo (Byte.to_N x) 16)) (hexEncodeToString rest))
  end.

(** [strconv.Itoa] and [strconv.FormatInt] in base 10. *)
Definition Itoa (z : Z) : string :=
  DecimalString.NilZero.string_of_int (Z.to_int z).

(** ** The store of reference objects *)

Abbreviation loc := nat (only parsing).

(** The fields of [http.Request] that get-object-if-match.go fills in: the
    header is a reference to a map in the store. *)
Record HttpRequest : Type := mkHttpRequest {
  Method : string;
  URL : option string;
  HeaderRef : loc;
}.

(** What the builders can reach: the maps behind [http.Header] and
    [url.Values] references, the [http.Request] cells behind pointers, and
    the package-level variable [GetObjectIfMatchReq]. *)
Record world : Type := mkWorld {
  maps : gmap loc Http.Values;
  requests : gmap loc HttpRequest;
  GetObjectIfMatchReq : loc;
}.

(** State passing over the store; [None] is a run-time panic (a write
    through a nil map, a nil pointer dereference). *)
Definition St (A : Type) : Type := world -> option (world * A).

Definition stRet {A} (a : A) : St A := fun w => Some (w, a).

Definition stBind {A B} (m : St A) (k : A -> St B) : St B :=
  fun w =>
    match m w with
    | Some (w', a) => k a w'
    | None => None
    end.

Notation "x <~ m ;; k" := (stBind m (fun x => k))
  (at level 100, m at next level, right associativity).

(** [http.Header{}] and [make(url.Values)]: a new, empty map. *)
Definition newMap : St loc :=
  fun w =>
    let l := fresh (dom (maps w)) in
    Some (mkWorld (<[l := ∅]> (maps w)) (requests w) (GetObjectIfMatchReq w), l).

(** An update of the map behind a reference. *)
Definition updMap (l : loc) (f : Http.Values -> Http.Values) : St unit :=
  fun w =>
    match maps w !! l with
    | Some h =>
        Some (mkWorld (<[l := f h]> (maps w)) (requests w)
                (GetObjectIfMatchReq w), tt)
    | None => None
    end.

(** [h.Set(key, value)] through the reference [l]. *)
Definition headerSetAt (l : loc) (key value : string) : St unit :=
  updMap l (fun h => Http.headerSet h key value).

(** [v.Set(key, value)] on a [url.Values] and the plain assignment
    [h[key] = []string{value}]: the key is used as it is written. *)
Definition valuesSetAt (l : loc) (key value : string) : St unit :=
  updMap l (fun h => Http.valuesSet h key value).

(** [*p] for a request pointer. *)
Definition loadRequest (p : loc) : St HttpRequest :=
  fun w =>
    match requests w !! p with
    | Some r => Some (w, r)
    | None => None
    end.

(** [*p = r] for a request pointer that points to a cell. *)
Definition storeRequest (p : loc) (r : HttpRequest) : St unit :=
  fun w =>
    match requests w !! p with
    | Some _ =>
        Some (mkWorld (maps w) (<[p := r]> (requests w))
                (GetObjectIfMatchReq w), tt)
    | None => None
    end.

(** [&r]: a new cell that holds the struct [r]. *)
Definition allocRequest (r : HttpRequest) : St loc :=
  fun w =>
    let p := fresh (dom (requests w)) in
    Some (mkWorld (maps w) (<[p := r]> (requests w)) (GetObjectIfMatchReq w), p).

Definition readGlobal : St loc :=
  fun w => Some (w, GetObjectIfMatchReq w).

Definition writeGlobal (p : loc) : St unit :=
  fun w => Some (mkWorld (maps w) (requests w) p, tt).

(** The contents behind a map reference ([nil] reads as the empty map). *)
Definition deref (w : world) (l : option loc) : Http.Values :=
  match l with
  | Some l => default ∅ (maps w !! l)
  | None => ∅
  end.

(** ** Configuration and request descriptions *)

Record ServerConfig : Type := mkServerConfig {
  Endpoint : string;
  Region : string;
  Access : string;
  Secret : string;
}.

(** The [Request] struct of the package (declared outside the embedded files):
    the fields the builders assign.  A nil map is [None]. *)
Record Request : Type := mkRequest {
  bucketName : string;
  objectName : string;
  queryValues : option loc;
  customHeader : option loc;
  contentBody : option (list byte);
  contentLength : Z;
}.

(** [ObjectInfo] (declared outside the embedded files): the fields the tests read and
    write.  [LastModified] is a point in time, kept as a number. *)
Record ObjectInfo : Type := mkObjectInfo {
  Key : string;
  Body : list byte;
  ETag : string;
  Size : Z;
  LastModified : Z;
  UploadID : string;
}.

(** ** Collaborators

    Functions of the package, of its [signv4] sub-package and of the
    libraries that the embedded files call but do not define.  The server is
    part of them: [execRequest] and [ExecRequest] answer a request with a
    response or a transport failure. *)
Class Collaborators : Type := {
  appUserAgent : string;
  computeHash : list byte -> error + (list byte * list byte * Z);
  Sum256 : list byte -> list byte;
  base64EncodeToString : list byte -> string;
  formatHTTPTime : Z -> string;
  verifyStandardHeaders : Http.Values -> option error;
  xmlDecode : Http.Reader -> error + Minio.ErrorResponse;
  makeTargetURL : string -> string -> string -> string -> error + string;
  SignV4 : HttpRequest -> string -> string -> string -> St loc;
  execRequest : ServerConfig -> string -> Request -> world -> error + Http.Response;
  ExecRequest : loc -> world -> error + Http.Response;
  GetObjectCleanUp : ServerConfig -> string -> string -> option error;
  randString : nat -> Z -> string -> string;
  urlParseHost : string -> error + string;
  minioNew : string -> string -> string -> bool -> option error;
  MakeBucket : string -> string -> option error;
  PutObject : string -> string -> list byte -> string -> option error;
  StatObject : string -> string -> error + string;
}.

Section Builders.
Context {env : Collaborators}.

(** *** put-object.go *)

Definition newPutObjectReq (config : ServerConfig)
    (bucketName objectName : string) (objectData : list byte)
  : St (error + Request) :=
  h <~ newMap ;;
  match computeHash objectData with
  | inl err => stRet (inl err)
  | inr (md5Sum, sha256Sum, contentLength) =>
      _ <~ headerSetAt h "Content-MD5" (base64EncodeToString md5Sum) ;;
      _ <~ headerSetAt h "X-Amz-Content-Sha256" (hexEncodeToString sha256Sum) ;;
      _ <~ headerSetAt h "User-Agent" appUserAgent ;;
      stRet (inr (mkRequest bucketName objectName None (Some h)
                    (Some objectData) contentLength))
  end.

(** *** The upload-part file *)

Definition newUploadPartReq (config : ServerConfig)
    (bucketName objectName uploadID : string) (partNumber : Z)
    (partData : list byte)
  : St (error + Request) :=
  h <~ newMap ;;
  urlValues <~ newMap ;;
  _ <~ valuesSetAt urlValues "partNumber" (Itoa partNumber) ;;
  _ <~ valuesSetAt urlValues "uploadId" uploadID ;;
  match computeHash partData with
  | inl err => stRet (inl err)
  | inr (md5Sum, sha256Sum, contentLength) =>
      _ <~ headerSetAt h "X-Amz-Content-Sha256" (hexEncodeToString sha256Sum) ;;
      _ <~ headerSetAt h "Content-MD5" (base64EncodeToString md5Sum) ;;
      stRet (inr (mkRequest bucketName objectName (Some urlValues) (Some h)
                    (Some partData) contentLength))
  end.

(** *** get-object-range.go *)

Definition newGetObjectRangeReq (config : ServerConfig)
    (bucketName objectName : string) (startRange endRange : Z)
  : St (error + Request) :=
  h <~ newMap ;;
  match computeHash [] with
  | inl err => stRet (inl err)
  | inr (_, sha256Sum, _) =>
      _ <~ headerSetAt h "Range"
             ("bytes=" ++ Itoa startRange ++ "-" ++ Itoa endRange) ;;
      _ <~ headerSetAt h "User-Agent" appUserAgent ;;
      _ <~ headerSetAt h "X-Amz-Content-Sha256" (hexEncodeToString sha256Sum) ;;
      stRet (inr (mkRequest bucketName objectName None (Some h) None 0))
  end.

(** *** get-object-if-modified-since.go *)

Definition newGetObjectIfModifiedSinceReq (config : ServerConfig)
    (bucketName objectName : string) (lastModified : Z)
  : St (error + Request) :=
  h <~ newMap ;;
  match computeHash [] with
  | inl err => stRet (inl err)
  | inr (_, sha256Sum, _) =>
      _ <~ headerSetAt h "X-Amz-Content-Sha256" (hexEncodeToString sha256Sum) ;;
      _ <~ headerSetAt h "If-Modified-Since" (formatHTTPTime lastModified) ;;
      _ <~ headerSetAt h "User-Agent" appUserAgent ;;
      stRet (inr (mkRequest bucketName objectName None (Some h) None 0))
  end.

(** *** The get-object-if-none-match file *)

Definition newGetObjectIfNoneMatchReq (config : ServerConfig)
    (bucketName objectName ETag : string)
  : St (error + Request) :=
  h <~ newMap ;;
  match computeHash [] with
  | inl err => stRet (inl err)
  | inr (_, sha256Sum, _) =>
      _ <~ headerSetAt h "If-None-Match" ETag ;;
      _ <~ headerSetAt h "User-Agent" appUserAgent ;;
      _ <~ headerSetAt h "X-Amz-Content-Sha256" (hexEncodeToString sha256Sum) ;;
      stRet (inr (mkRequest bucketName objectName None (Some h) None 0))
  end.

(** *** The remove-object file *)

Definition newRemoveObjectReq (config : ServerConfig)
    (bucketName objectName : string)
  : St (error + Request) :=
  h <~ newMap ;;
  match computeHash [] with
  | inl err => stRet (inl err)
  | inr (_, sha256Sum, _) =>
      _ <~ headerSetAt h "User-Agent" appUserAgent ;;
      _ <~ headerSetAt h "X-Amz-Content-Sha256" (hexEncodeToString sha256Sum) ;;
      stRet (inr (mkRequest bucketName objectName None (Some h) None 0))
  end.

(** *** get-object-if-match.go

    The package-level [GetObjectIfMatchReq] starts as a pointer to this
    request, whose header map holds the payload hash of the empty body and an
    [If-Match] entry still to be filled in. *)
Definition initialWorld : world :=
  mkWorld
    {[ 0%nat := {[ "X-Amz-Content-Sha256" := [hexEncodeToString (Sum256 [])];
                   "If-Match" := [""] ]} ]}
    {[ 0%nat := mkHttpRequest "GET" None 0%nat ]}
    0%nat.

(** The builder fills in the request behind the package-level pointer, has
    it signed, stores the pointer the signer returns in the package-level
    variable and returns that same pointer. *)
Definition NewGetObjectIfMatchReq (config : ServerConfig)
    (bucketName objectName ETag : string)
  : St (error + loc) :=
  match makeTargetURL (Endpoint config) bucketName objectName (Region config) with
  | inl err => stRet (inl err)
  | inr targetURL =>
      p <~ readGlobal ;;
      r <~ loadRequest p ;;
      _ <~ valuesSetAt (HeaderRef r) "If-Match" ETag ;;
      _ <~ storeRequest p (mkHttpRequest (Method r) (Some targetURL) (HeaderRef r)) ;;
      r' <~ loadRequest p ;;
      q <~ SignV4 r' (Access config) (Secret config) (Region config) ;;
      _ <~ writeGlobal q ;;
      q' <~ readGlobal ;;
      stRet (inr q')
  end.

End Builders.

(** ** Response verifiers *)

Section Verifiers.
Context {env : Collaborators}.

(** The body check shared by the operations whose response has no body:
    read everything, complain (with [format]) about anything read. *)
Definition verifyEmptyBody (format : string) (resBody : Http.Reader)
  : option error :=
  let (body, err) := Http.ReadAll resBody in
  match err with
  | Some e => Some e
  | None =>
      if negb (bytesEqual body [])
      then Some (Errorf format [VBytes body])
      else None
  end.

(** The body check of the GET variants: read everything, compare with the
    expected bytes. *)
Definition verifyExactBody (format : string) (resBody : Http.Reader)
    (expectedBody : list byte) : option error :=
  let (body, err) := Http.ReadAll resBody in
  match err with
  | Some e => Some e
  | None =>
      if negb (bytesEqual body expectedBody)
      then Some (Errorf format [VBytes expectedBody; VBytes body])
      else None
  end.

(** The status check on numeric codes. *)
Definition verifyStatusCode (format : string)
    (respStatusCode expectedStatusCode : Z) : option error :=
  if negb (respStatusCode =? expectedStatusCode)%Z
  then Some (Errorf format [VInt expectedStatusCode; VInt respStatusCode])
  else None.

(** *** put-object.go *)

Definition verifyStatusPutObject (respStatusCode expectedStatusCode : Z)
  : option error :=
  verifyStatusCode "Unexpected Response Status Code: wanted %v, got %v"
    respStatusCode expectedStatusCode.

Definition verifyBodyPutObject (resBody : Http.Reader) : option error :=
  verifyEmptyBody
    "Unexpected Body Recieved: expected empty body but recieved: %v" resBody.

Definition verifyHeaderPutObject (header : Http.Values) : option error :=
  verifyStandardHeaders header >>? None.

Definition putObjectVerify (res : Http.Response) (expectedStatusCode : Z)
  : option error :=
  verifyHeaderPutObject (Http.Header res) >>?
  verifyStatusPutObject (Http.StatusCode res) expectedStatusCode >>?
  verifyBodyPutObject (Http.Body res) >>?
  None.

(** *** The upload-part file *)

Definition verifyBodyUploadPart (resBody : Http.Reader) : option error :=
  verifyEmptyBody "Unexpected Body Received: %v" resBody.

Definition verifyStatusUploadPart (respStatusCode expectedStatusCode : Z)
  : option error :=
  verifyStatusCode "Unexpected Status Received: wanted %v, got %v"
    respStatusCode expectedStatusCode.

Definition verifyHeaderUploadPart (header : Http.Values) : option error :=
  verifyStandardHeaders header >>? None.

Definition uploadPartVerify (res : Http.Response) (expectedStatusCode : Z)
  : option error :=
  verifyBodyUploadPart (Http.Body res) >>?
  verifyStatusUploadPart (Http.StatusCode res) expectedStatusCode >>?
  verifyHeaderUploadPart (Http.Header res) >>?
  None.

(** *** get-object-if-match.go *)

Definition VerifyHeaderGetObjectIfMatch (res : Http.Response) : option error :=
  verifyStandardHeaders (Http.Header res) >>? None.

Definition VerifyBodyGetObjectIfMatch (res : Http.Response)
    (objectBody : list byte) (shouldFail : bool) : option error :=
  if shouldFail then
    match xmlDecode (Http.Body res) with
    | inl err => Some err
    | inr errBody =>
        if negb (String.eqb (Minio.Code errBody) "PreconditionFailed")
        then Some (Errorf
                     "Unexpected Error Response: wanted PreconditionFailed, got %v"
                     [VStr (Minio.Code errBody)])
        else None
    end
  else
    let (body, err) := Http.ReadAll (Http.Body res) in
    match err with
    | Some e => Some e
    | None =>
        if negb shouldFail && negb (bytesEqual body objectBody)
        then Some (Errorf "Unexpected Body Recieved: wanted %v, got %v"
                     [VBytes objectBody; VBytes body])
        else None
    end.

Definition VerifyStatusGetObjectIfMatch (res : Http.Response)
    (expectedStatus : string) : option error :=
  if negb (String.eqb (Http.Status res) expectedStatus)
  then Some (Errorf "Unexpected Response Status Code: wanted %v, got %v"
               [VStr expectedStatus; VStr (Http.Status res)])
  else None.

Definition GetObjectIfMatchVerify (res : Http.Response)
    (objectBody : list byte) (expectedStatus : string) (shouldFail : bool)
  : option error :=
  VerifyHeaderGetObjectIfMatch res >>?
  VerifyBodyGetObjectIfMatch res objectBody shouldFail >>?
  VerifyStatusGetObjectIfMatch res expectedStatus >>?
  None.

(** *** The get-object-if-none-match file *)

Definition verifyHeaderGetObjectIfNoneMatch (header : Http.Values)
  : option error :=
  verifyStandardHeaders header >>? None.

Definition verifyStatusGetObjectIfNoneMatch
    (respStatusCode expectedStatusCode : Z) : option error :=
  verifyStatusCode "Unexpected Response Status Code: wanted %v, got %v"
    respStatusCode expectedStatusCode.

Definition verifyBodyGetObjectIfNoneMatch (resBody : Http.Reader)
    (expectedBody : list byte) : option error :=
  verifyExactBody "Unexpected Body Recieved: wanted %v, got %v"
    resBody expectedBody.

Definition getObjectIfNoneMatchVerify (res : Http.Response)
    (objectBody : list byte) (expectedStatusCode : Z) : option error :=
  verifyHeaderGetObjectIfNoneMatch (Http.Header res) >>?
  verifyStatusGetObjectIfNoneMatch (Http.StatusCode res) expectedStatusCode >>?
  verifyBodyGetObjectIfNoneMatch (Http.Body res) objectBody >>?
  None.

(** *** get-object-if-modified-since.go *)

Definition verifyHeaderGetObjectIfModifiedSince (header : Http.Values)
  : option error :=
  verifyStandardHeaders header >>? None.

Definition verifyBodyGetObjectIfModifiedSince (resBody : Http.Reader)
    (expectedBody : list byte) : option error :=
  verifyExactBody "Unexpected Body Received: wanted %v, got %v"
    resBody expectedBody.

Definition verifyStatusGetObjectIfModifiedSince
    (respStatusCode expectedStatusCode : Z) : option error :=
  verifyStatusCode "Unexpected Response Status Code: wanted %v, got %v"
    respStatusCode expectedStatusCode.

Definition verifyGetObjectIfModifiedSince (res : Http.Response)
    (expectedBody : list byte) (expectedStatusCode : Z) : option error :=
  verifyHeaderGetObjectIfModifiedSince (Http.Header res) >>?
  verifyBodyGetObjectIfModifiedSince (Http.Body res) expectedBody >>?
  verifyStatusGetObjectIfModifiedSince (Http.StatusCode res) expectedStatusCode >>?
  None.

(** *** The remove-object file *)

Definition verifyHeaderRemoveObject (header : Http.Values) : option error :=
  verifyStandardHeaders header >>? None.

Definition verifyBodyRemoveObject (resBody : Http.Reader) : option error :=
  verifyEmptyBody "Unexpected Body Received: %v" resBody.

Definition verifyStatusRemoveObject (respStatusCode expectedStatusCode : Z)
  : option error :=
  verifyStatusCode "Unexpected Status Received: wanted %d, got %d"
    respStatusCode expectedStatusCode.

Definition removeObjectVerify (res : Http.Response) (expectedStatusCode : Z)
  : option error :=
  verifyHeaderRemoveObject (Http.Header res) >>?
  verifyBodyRemoveObject (Http.Body res) >>?
  verifyStatusRemoveObject (Http.StatusCode res) expectedStatusCode >>?
  None.

(** *** The verifier of the plain GET *)

(** Modelled from the spec: [getObjectVerify], which get-object-range.go
    calls and which is defined outside the embedded files.  The spec's
    verifier checks the status for exact equality with the expected code,
    then the standard headers, then that the body equals the expected bytes,
    and returns at the first failing check. *)
Definition getObjectVerify (res : Http.Response) (expectedBody : list byte)
    (expectedStatusCode : Z) : option error :=
  verifyStatusCode "Unexpected Response Status Code: wanted %v, got %v"
    (Http.StatusCode res) expectedStatusCode >>?
  verifyStandardHeaders (Http.Header res) >>?
  verifyExactBody "Unexpected Body Recieved: wanted %v, got %v"
    (Http.Body res) expectedBody >>?
  None.

End Verifiers.

(** ** Parts and the fixture registries *)

Module Part.

(** [objectPart] (declared outside the embedded files). *)
Record objectPart : Type := mk {
  PartNumber : Z;
  ETag : string;
  Size : Z;
}.

End Part.

Module Complete.

(** [completePart] and [completeMultipartUpload] (declared outside the
    embedded files). *)
Record completePart : Type := mk {
  ETag : string;
  PartNumber : Z;
}.

Record completeMultipartUpload : Type := mkUpload {
  Parts : list completePart;
}.

End Complete.

(** What an upload-part task sends back. *)
Record partChannel : Type := mkPartChannel {
  index : nat;
  objPart : Part.objectPart;
  err : option error;
}.

(** The package-level fixture lists that the tests write: [objects]
    (put-object.go), [objectParts] and [complMultipartUploads]
    (the upload-part file). *)
Record registry : Type := mkRegistry {
  objects : list (option ObjectInfo);
  objectParts : list Part.objectPart;
  complMultipartUploads : list Complete.completeMultipartUpload;
}.

(** Their values when the program starts: fifty nil object pointers, no
    part, two uploads without parts. *)
Definition initialRegistry : registry :=
  mkRegistry (replicate 50 None) []
    [Complete.mkUpload []; Complete.mkUpload []].

(** ** Goroutine bodies and test functions as processes *)

(** What a process does that other parties can observe: it obtains a
    response from the executor (the body is open from then on), closes a
    response, sends on the error or the part channel, assigns a slot of
    [objects], or asks for the cleanup of a bucket and object. *)
Inductive event : Type :=
  | Acquire (h : nat)
  | Release (h : nat)
  | SendErr (e : option error)
  | SendPart (m : partChannel)
  | StoreObject (cur : nat) (o : ObjectInfo)
  | CleanUp (bucket object : string).

Record pstate : Type := mkPstate {
  store : world;
  trace : list event;
  deferred : list event;
  opened : nat;
}.

(** How a statement ends: it falls through with a value, the function
    returns, or the program panics. *)
Inductive step (R A : Type) : Type :=
  | Next (a : A)
  | Return (r : R)
  | Panic.

Arguments Next {R A} a.
Arguments Return {R A} r.
Arguments Panic {R A}.

Definition Proc (R A : Type) : Type := pstate -> pstate * step R A.

Definition pRet {R A} (a : A) : Proc R A := fun s => (s, Next a).

Definition pBind {R A B} (m : Proc R A) (k : A -> Proc R B) : Proc R B :=
  fun s =>
    match m s with
    | (s', Next a) => k a s'
    | (s', Return r) => (s', Return r)
    | (s', Panic) => (s', Panic)
    end.

Notation "x <~~ m ;; k" := (pBind m (fun x => k))
  (at level 100, m at next level, right associativity).

Notation "m ;;; k" := (pBind m (fun _ => k))
  (at level 100, right associativity).

(** [return r]. *)
Definition ret {R A} (r : R) : Proc R A := fun s => (s, Return r).

Definition emit {R} (e : event) : Proc R unit :=
  fun s => (mkPstate (store s) (trace s ++ [e]) (deferred s) (opened s), Next tt).

(** [defer]: the deferred calls run last in, first out. *)
Definition defer {R} (e : event) : Proc R unit :=
  fun s => (mkPstate (store s) (trace s) (e :: deferred s) (opened s), Next tt).

(** A builder run on the process's store. *)
Definition liftSt {R A} (m : St A) : Proc R A :=
  fun s =>
    match m (store s) with
    | Some (w, a) => (mkPstate w (trace s) (deferred s) (opened s), Next a)
    | None => (s, Panic)
    end.

(** A call of the executor: a response it returns is a new open resource
    of the process. *)
Definition exec {R} (call : world -> error + Http.Response)
  : Proc R (error + nat * Http.Response) :=
  fun s =>
    match call (store s) with
    | inl e => (s, Next (inl e))
    | inr res =>
        (mkPstate (store s) (trace s ++ [Acquire (opened s)]) (deferred s)
           (S (opened s)),
         Next (inr (opened s, res)))
    end.

(** A partial library call: [None] panics. *)
Definition orPanic {R A} (o : option A) : Proc R A :=
  fun s =>
    match o with
    | Some a => (s, Next a)
    | None => (s, Panic)
    end.

(** [closeResponse(res)] closes the body of the response. *)
Definition closeResponse (h : nat) : event := Release h.

(** A function body run to its end: when it returns, falls off its end or
    panics, its deferred calls run. *)
Definition run {R} (p : Proc R R) (s : pstate) : pstate * step R R :=
  let (s', r) := p s in
  (mkPstate (store s') (trace s' ++ deferred s') [] (opened s'), r).

Definition startIn (w : world) : pstate := mkPstate w [] [] 0.

(** The events of a goroutine started on the store [w]. *)
Definition eventsOf {R} (p : Proc R R) (w : world) : list event :=
  trace (fst (run p (startIn w))).

(** The responses still open at the end of a trace. *)
Fixpoint leaked (open : list nat) (t : list event) : list nat :=
  match t with
  | [] => open
  | Acquire h :: t' => leaked (open ++ [h]) t'
  | Release h :: t' => leaked (filter (fun h' => h' ≠ h) open) t'
  | _ :: t' => leaked open t'
  end.

(** The messages a trace puts on the error channel and on the part
    channel, in order. *)
Definition sentErrs (t : list event) : list (option error) :=
  omap (fun e => match e with SendErr m => Some m | _ => None end) t.

Definition sentParts (t : list event) : list partChannel :=
  omap (fun e => match e with SendPart m => Some m | _ => None end) t.

(** The slots of [objects] a trace assigns. *)
Definition storedSlots (t : list event) : list nat :=
  omap (fun e => match e with StoreObject cur _ => Some cur | _ => None end) t.

(** The assignments to the registry and the sends on a channel among the
    events of a trace, in the order in which they happen. *)
Definition writesAndSends (t : list event) : list event :=
  omap (fun e => match e with
                 | StoreObject _ _ | SendErr _ | SendPart _ => Some e
                 | _ => None
                 end) t.

(** ** String and slice helpers of the Go library *)

(** The one-character string that holds a double quote. *)
Definition quote : string := String (ascii_of_nat 34) EmptyString.

Definition HasSuffix (s suffix : string) : bool :=
  (String.length suffix <=? String.length s)%nat
  && String.eqb
       (String.substring (String.length s - String.length suffix)
          (String.length suffix) s)
       suffix.

(** [strings.TrimPrefix]. *)
Definition TrimPrefix (s prefix : string) : string :=
  if String.prefix prefix s
  then String.substring (String.length prefix)
         (String.length s - String.length prefix) s
  else s.

(** [strings.TrimSuffix]. *)
Definition TrimSuffix (s suffix : string) : string :=
  if HasSuffix s suffix
  then String.substring 0 (String.length s - String.length suffix) s
  else s.

(** Two's-complement wrap-around of [int64] arithmetic. *)
Definition wrap64 (z : Z) : Z :=
  ((z + 2 ^ 63) mod 2 ^ 64 - 2 ^ 63)%Z.

(** [rand.Int63n(n)]: panics when [n <= 0], otherwise a number in
    [[0, n)]; [draw] is what the random source yields. *)
Definition Int63n (n draw : Z) : option Z :=
  if (n <=? 0)%Z then None else Some (draw mod n)%Z.

(** The slice expression [b[lo:hi]] on a slice [b] whose backing array
    holds the bytes [spare] behind the last element of [b], so that
    [cap(b) = len(b) + len(spare)]: it panics unless [0 <= lo <= hi] and
    [hi] is within the capacity, and its result runs over the backing
    array, into [spare] when [hi] exceeds the length. *)
Definition sliceBytes (b spare : list byte) (lo hi : Z)
  : option (list byte) :=
  if ((0 <=? lo) && (lo <=? hi)
      && (hi <=? Z.of_nat (List.length b + List.length spare)))%Z
  then Some (take (Z.to_nat hi - Z.to_nat lo)
               (drop (Z.to_nat lo) (b ++ spare)%list))
  else None.

(** ** The concurrent tasks *)

Section Tasks.
Context {env : Collaborators}.

(** [errCh <- err; return] *)
Definition sendErrReturn {A} (e : error) : Proc unit A :=
  emit (SendErr (Some e)) ;;; ret tt.

(** *** put-object.go: the goroutine of [mainPutObject]

    [body] is the random string [randString] yields for this object. *)
Definition putObjectTask (config : ServerConfig) (bucketName : string)
    (cur : nat) (body : string) : Proc unit unit :=
  let object :=
    mkObjectInfo ("s3verify-put-parallel" ++ Itoa (Z.of_nat cur))
      (list_byte_of_string body) "" 0 0 "" in
  r <~~ liftSt (newPutObjectReq config bucketName (Key object) (Body object)) ;;
  match r with
  | inl err => sendErrReturn err
  | inr req =>
      r <~~ exec (execRequest config "PUT" req) ;;
      match r with
      | inl err => sendErrReturn err
      | inr (h, res) =>
          defer (closeResponse h) ;;;
          match putObjectVerify res Http.StatusOK with
          | Some err => sendErrReturn err
          | None =>
              emit (StoreObject cur object) ;;;
              emit (SendErr None)
          end
      end
  end.

(** *** The upload-part file: the goroutine of [mainUploadPart]

    [objectData] is the buffer after [io.ReadFull(crand.Reader, objectData)]
    and [readErr] what that call returned. *)
Definition partMessage {A} (cur : nat) (part : Part.objectPart)
    (e : error) : Proc unit A :=
  emit (SendPart (mkPartChannel cur part (Some e))) ;;; ret tt.

Definition uploadPartTask (config : ServerConfig) (bucketName : string)
    (objectKey objectUploadID : string) (cur : nat)
    (objectData : list byte) (readErr : option error) : Proc unit unit :=
  let part := Part.mk 1 "" (Z.of_nat (List.length objectData)) in
  match readErr with
  | Some err => partMessage cur part err
  | None =>
      r <~~ liftSt (newUploadPartReq config bucketName objectKey
                      objectUploadID 1 objectData) ;;
      match r with
      | inl err => partMessage cur part err
      | inr req =>
          r <~~ exec (execRequest config "PUT" req) ;;
          match r with
          | inl err => partMessage cur part err
          | inr (h, res) =>
              defer (closeResponse h) ;;;
              match uploadPartVerify res Http.StatusOK with
              | Some err => partMessage cur part err
              | None =>
                  let etag :=
                    TrimPrefix (Http.headerGet (Http.Header res) "ETag") quote in
                  let etag := TrimSuffix etag quote in
                  let part := Part.mk (Part.PartNumber part) etag (Part.Size part) in
                  emit (SendPart (mkPartChannel cur part None))
              end
          end
      end
  end.

(** *** get-object-range.go: the goroutine of [mainGetObjectRange]

    [draw1] and [draw2] are what the random source yields for the two
    [rand.Int63n] calls; [objectSpare] is what the backing array of
    [objectBody] holds behind its last byte. *)
Definition chooseRange (objectSize draw1 draw2 : Z) : option (Z * Z) :=
  match Int63n objectSize draw1 with
  | None => None
  | Some startRange =>
      match Int63n (wrap64 (objectSize - startRange)) draw2 with
      | None => None
      | Some r => Some (startRange, wrap64 (r + startRange))
      end
  end.

Definition getObjectRangeTask (config : ServerConfig) (bucketName : string)
    (objectKey : string) (objectSize : Z) (objectBody objectSpare : list byte)
    (draw1 draw2 : Z) : Proc unit unit :=
  bounds <~~ orPanic (chooseRange objectSize draw1 draw2) ;;
  let startRange := fst bounds in
  let endRange := snd bounds in
  r <~~ liftSt (newGetObjectRangeReq config bucketName objectKey
                  startRange endRange) ;;
  match r with
  | inl err => sendErrReturn err
  | inr req =>
      r <~~ exec (execRequest config "GET" req) ;;
      match r with
      | inl err => sendErrReturn err
      | inr (h, res) =>
          defer (closeResponse h) ;;;
          bufRange <~~ orPanic (sliceBytes objectBody objectSpare startRange
                                  (wrap64 (endRange + 1))) ;;
          match getObjectVerify res bufRange Http.StatusPartialContent with
          | Some err => sendErrReturn err
          | None => emit (SendErr None)
          end
      end
  end.

(** *** get-object-if-modified-since.go: the goroutine of
    [mainGetObjectIfModifiedSince] *)
Definition getObjectIfModifiedSinceTask (config : ServerConfig)
    (bucketName : string) (pastDate : Z) (objectKey : string)
    (objectLastModified : Z) (objectBody : list byte) : Proc unit unit :=
  r <~~ liftSt (newGetObjectIfModifiedSinceReq config bucketName objectKey
                  objectLastModified) ;;
  match r with
  | inl err => sendErrReturn err
  | inr req =>
      r <~~ exec (execRequest config "GET" req) ;;
      match r with
      | inl err => sendErrReturn err
      | inr (h, res) =>
          defer (closeResponse h) ;;;
          match verifyGetObjectIfModifiedSince res [] Http.StatusNotModified with
          | Some err => sendErrReturn err
          | None =>
              r <~~ liftSt (newGetObjectIfModifiedSinceReq config bucketName
                              objectKey pastDate) ;;
              match r with
              | inl err => sendErrReturn err
              | inr goodReq =>
                  r <~~ exec (execRequest config "GET" goodReq) ;;
                  match r with
                  | inl err => sendErrReturn err
                  | inr (goodH, goodRes) =>
                      defer (closeResponse goodH) ;;;
                      match verifyGetObjectIfModifiedSince goodRes objectBody
                              Http.StatusOK with
                      | Some err => sendErrReturn err
                      | None => emit (SendErr None)
                      end
                  end
              end
          end
      end
  end.

(** *** The get-object-if-none-match file: the goroutine of
    [mainGetObjectIfNoneMatch] *)
Definition getObjectIfNoneMatchTask (config : ServerConfig)
    (bucketName : string) (objectKey objectETag : string)
    (objectBody : list byte) : Proc unit unit :=
  let invalidETag := "1234567890" in
  r <~~ liftSt (newGetObjectIfNoneMatchReq config bucketName objectKey objectETag) ;;
  match r with
  | inl err => sendErrReturn err
  | inr req =>
      r <~~ exec (execRequest config "GET" req) ;;
      match r with
      | inl err => sendErrReturn err
      | inr (h, res) =>
          defer (closeResponse h) ;;;
          match getObjectIfNoneMatchVerify res [] 304 with
          | Some err => sendErrReturn err
          | None =>
              r <~~ liftSt (newGetObjectIfNoneMatchReq config bucketName
                              objectKey invalidETag) ;;
              match r with
              | inl err => sendErrReturn err
              | inr badReq =>
                  r <~~ exec (execRequest config "GET" badReq) ;;
                  match r with
                  | inl err => sendErrReturn err
                  | inr (badH, badRes) =>
                      defer (closeResponse badH) ;;;
                      match getObjectIfNoneMatchVerify badRes objectBody
                              Http.StatusOK with
                      | Some err => sendErrReturn err
                      | None => emit (SendErr None)
                      end
                  end
              end
          end
      end
  end.

(** *** The remove-object file: the goroutine of [mainRemoveObjectExists] *)
Definition removeObjectTask (config : ServerConfig)
    (bucketName objectKey : string) : Proc unit unit :=
  r <~~ liftSt (newRemoveObjectReq config bucketName objectKey) ;;
  match r with
  | inl err => sendErrReturn err
  | inr req =>
      r <~~ exec (execRequest config "DELETE" req) ;;
      match r with
      | inl err => sendErrReturn err
      | inr (h, res) =>
          defer (closeResponse h) ;;;
          match removeObjectVerify res Http.StatusNoContent with
          | Some err => sendErrReturn err
          | None => emit (SendErr None)
          end
      end
  end.

(** *** get-object-if-match.go: the sequential test [mainGetObjectIfMatch]

    [seed1] and [seed2] seed the two random names, [buf] is the random
    buffer after [io.ReadFull] and [readErr] what that call returned.
    [StatObject] stands for the call and the [ETag] field of its result. *)
Definition GetObjectIfMatchInit (config : ServerConfig) (seed1 seed2 : Z)
    (buf : list byte) (readErr : option error)
  : string * string * string * list byte * option error :=
  let bucketName := randString 60 seed1 "s3verify-get" in
  let objectName := randString 60 seed2 "s3verify-get" in
  let ETag := "" in
  match readErr with
  | Some err => (bucketName, objectName, ETag, buf, Some err)
  | None =>
  match urlParseHost (Endpoint config) with
  | inl err => (bucketName, objectName, ETag, buf, Some err)
  | inr host =>
  match minioNew host (Access config) (Secret config) true with
  | Some err => (bucketName, objectName, ETag, buf, Some err)
  | None =>
  match MakeBucket bucketName (Region config) with
  | Some err => (bucketName, objectName, ETag, buf, Some err)
  | None =>
  match PutObject bucketName objectName buf "binary/octet-stream" with
  | Some err => (bucketName, objectName, ETag, buf, Some err)
  | None =>
  match StatObject bucketName objectName with
  | inl err => (bucketName, objectName, ETag, buf, Some err)
  | inr etag => (bucketName, objectName, etag, buf, None)
  end end end end end end.

(** The error exit of [mainGetObjectIfMatch]: attempt the cleanup, return
    its error if it has one, the original error otherwise. *)
Definition cleanUpReturn {A} (config : ServerConfig)
    (bucketName objectName : string) (e : error) : Proc (option error) A :=
  emit (CleanUp bucketName objectName) ;;;
  match GetObjectCleanUp config bucketName objectName with
  | Some errC => ret (Some errC)
  | None => ret (Some e)
  end.

Definition mainGetObjectIfMatch (config : ServerConfig) (seed1 seed2 : Z)
    (randomBuf : list byte) (readErr : option error)
  : Proc (option error) (option error) :=
  let invalidETag := "1234567890" in
  let '(bucketName, objectName, ETag, buf, initErr) :=
    GetObjectIfMatchInit config seed1 seed2 randomBuf readErr in
  match initErr with
  | Some err => cleanUpReturn config bucketName objectName err
  | None =>
  r <~~ liftSt (NewGetObjectIfMatchReq config bucketName objectName ETag) ;;
  match r with
  | inl err => cleanUpReturn config bucketName objectName err
  | inr req =>
  r <~~ exec (ExecRequest req) ;;
  match r with
  | inl err => cleanUpReturn config bucketName objectName err
  | inr (_, res) =>
  match GetObjectIfMatchVerify res buf "200 OK" false with
  | Some err => cleanUpReturn config bucketName objectName err
  | None =>
  r <~~ liftSt (NewGetObjectIfMatchReq config bucketName objectName invalidETag) ;;
  match r with
  | inl err => cleanUpReturn config bucketName objectName err
  | inr badReq =>
  r <~~ exec (ExecRequest badReq) ;;
  match r with
  | inl err => cleanUpReturn config bucketName objectName err
  | inr (_, badRes) =>
  match GetObjectIfMatchVerify badRes [] "412 Precondition Failed" true with
  | Some err => cleanUpReturn config bucketName objectName err
  | None =>
  emit (CleanUp bucketName objectName) ;;;
  match GetObjectCleanUp config bucketName objectName with
  | Some err => ret (Some err)
  | None => ret None
  end end end end end end end end.

End Tasks.

(** ** Channels and the aggregation loops *)

(** A channel as the receiving loop sees it: the messages in the order in
    which they will be received, and whether the channel is closed once they
    are taken. *)
Record chan (M : Type) : Type := mkChan {
  queue : list M;
  closed : bool;
}.

Arguments mkChan {M} queue closed.
Arguments queue {M} c.
Arguments closed {M} c.

(** [m, ok := <-ch]: a message, the closed and empty channel, or a receive
    that blocks for ever. *)
Inductive received (M : Type) : Type :=
  | Got (m : M) (rest : chan M)
  | Closed
  | Blocks.

Arguments Got {M} m rest.
Arguments Closed {M}.
Arguments Blocks {M}.

Definition receive {M} (ch : chan M) : received M :=
  match queue ch with
  | m :: q => Got m (mkChan q (closed ch))
  | [] => if closed ch then Closed else Blocks
  end.

(** How a receiving loop ends: it has counted down to zero and the
    function goes on ([Drained]); the function returns [false], after
    printing the error it received if it received one ([Aborted]); it waits
    for ever on an empty channel ([Hung]); it panics ([Crashed]). *)
Inductive loopEnd : Type :=
  | Drained
  | Aborted (printed : option error)
  | Hung
  | Crashed.

(** The loop [for count > 0 { count--; err, ok := <-errCh; ... }] of
    [mainPutObject], [mainGetObjectRange], [mainGetObjectIfModifiedSince],
    [mainGetObjectIfNoneMatch] and (three times per bucket) of
    [mainRemoveObjectExists]. *)
Fixpoint awaitErrors (count : nat) (errCh : chan (option error))
  : loopEnd * chan (option error) :=
  match count with
  | O => (Drained, errCh)
  | S count' =>
      match receive errCh with
      | Blocks => (Hung, errCh)
      | Closed => (Aborted None, errCh)
      | Got (Some e) rest => (Aborted (Some e), rest)
      | Got None rest => awaitErrors count' rest
      end
  end.

(** [complPart] as the loop of [mainUploadPart] builds it. *)
Definition toCompletePart (p : Part.objectPart) : Complete.completePart :=
  Complete.mk (Part.ETag p) (Part.PartNumber p).

(** The loop of [mainUploadPart]: each part received without an error is
    appended to [objectParts] and to the [Parts] of the upload at the
    message's index. *)
Fixpoint awaitParts (count : nat) (partCh : chan partChannel) (reg : registry)
  : loopEnd * chan partChannel * registry :=
  match count with
  | O => (Drained, partCh, reg)
  | S count' =>
      match receive partCh with
      | Blocks => (Hung, partCh, reg)
      | Closed => (Aborted None, partCh, reg)
      | Got partChRes rest =>
          match err partChRes with
          | Some e => (Aborted (Some e), rest, reg)
          | None =>
              let objectPart := objPart partChRes in
              let parts := (objectParts reg ++ [objectPart])%list in
              let complPart := toCompletePart objectPart in
              match complMultipartUploads reg !! index partChRes with
              | None =>
                  (Crashed, rest,
                   mkRegistry (objects reg) parts (complMultipartUploads reg))
              | Some upload =>
                  awaitParts count' rest
                    (mkRegistry (objects reg) parts
                       (<[index partChRes :=
                            Complete.mkUpload (Complete.Parts upload ++ [complPart])%list]>
                          (complMultipartUploads reg)))
              end
          end
      end
  end.

(** The receiving side of [mainRemoveObjectExists]: for every bucket, one
    loop for the objects, one for the copied objects and one for the
    multipart objects, all on the same channel. *)
Fixpoint awaitRemovals (buckets nObjects nCopyObjects nMultipartObjects : nat)
    (errCh : chan (option error)) : loopEnd * chan (option error) :=
  match buckets with
  | O => (Drained, errCh)
  | S buckets' =>
      match awaitErrors nObjects errCh with
      | (Drained, ch1) =>
          match awaitErrors nCopyObjects ch1 with
          | (Drained, ch2) =>
              match awaitErrors nMultipartObjects ch2 with
              | (Drained, ch3) =>
                  awaitRemovals buckets' nObjects nCopyObjects
                    nMultipartObjects ch3
              | stop => stop
              end
          | stop => stop
          end
      | stop => stop
      end
  end.

(** What a test function returns once its loop has ended: [true] after a
    drained loop, [false] after an aborted one; nothing if the loop hangs or
    panics. *)
Definition testResult (e : loopEnd) : option bool :=
  match e with
  | Drained => Some true
  | Aborted _ => Some false
  | Hung | Crashed => None
  end.

(** The assignment [objects[cur] = object] of a put-object task, applied to
    the registry; out of range it panics. *)
Definition storeObject (reg : registry) (cur : nat) (o : ObjectInfo)
  : option registry :=
  match objects reg !! cur with
  | Some _ =>
      Some (mkRegistry (<[cur := Some o]> (objects reg)) (objectParts reg)
              (complMultipartUploads reg))
  | None => None
  end.

(** ** The order of checks in the specification's words *)

(** The first failing check of a list of checks, in list order. *)
Fixpoint firstFailure (checks : list (option error)) : option error :=
  match checks with
  | [] => None
  | Some e :: _ => Some e
  | None :: rest => firstFailure rest
  end.

(** The verifier as the specification words it: the status check, then the
    header check, then the body check, returning at the first failing
    check. *)
Definition statusHeadersBody (status header body : option error)
  : option error :=
  firstFailure [status; header; body].

(** ** A sample server and sample collaborators

    Concrete collaborators on which the embedded code runs to a value: a
    server that accepts every upload and deletion with an empty body and an
    entity tag, serves the sample object on a matching [If-Match] and
    answers 412 with an error document otherwise; digests and encoders that
    return fixed bytes; a header validator that accepts every header; a
    signer that behaves as the one of minio-go. *)
Module Sample.

Definition config : ServerConfig :=
  mkServerConfig "https://play.minio.io:9000" "us-east-1" "ACCESS" "SECRET".

Definition payload : list byte := [x68; x65; x6c; x6c; x6f].

Definition etag : string := "5d41402abc4b2a76b9719d911017c592".

Definition uploadResponse : Http.Response :=
  Http.mkResponse "200 OK" 200
    {[ "Etag" := [quote ++ etag ++ quote] ]}
    (Http.mkReader [] None).

Definition objectResponse : Http.Response :=
  Http.mkResponse "200 OK" 200 ∅ (Http.mkReader payload None).

Definition preconditionFailedResponse : Http.Response :=
  Http.mkResponse "412 Precondition Failed" 412 ∅
    (Http.mkReader (list_byte_of_string "<Error><Code>PreconditionFailed</Code></Error>") None).

(** Modelled from the spec: the signer [signv4.SignV4] (package signv4, not
    among the embedded files), "a Signer(request, credentials) -> signed
    request" that produces the authorization header.  It receives the
    request struct by value, writes the header through the struct's header
    reference and returns a pointer to its copy of the struct. *)
Definition signer (req : HttpRequest) (access secret region : string)
  : St loc :=
  _ <~ headerSetAt (HeaderRef req) "Authorization"
         ("AWS4-HMAC-SHA256 Credential=" ++ access ++ "/" ++ region) ;;
  allocRequest req.

(** The server's answer to a request of get-object-if-match.go: by the
    [If-Match] entry of the request's header. *)
Definition server (req : loc) (w : world) : error + Http.Response :=
  match requests w !! req with
  | None => inl (Opaque "nil request")
  | Some r =>
      match deref w (Some (HeaderRef r)) !! "If-Match" with
      | Some [tag] =>
          if String.eqb tag etag
          then inr objectResponse
          else inr preconditionFailedResponse
      | _ => inr objectResponse
      end
  end.

Definition env : Collaborators := {|
  appUserAgent := "S3Verify (linux; amd64) s3verify/1.0";
  computeHash := fun b => inr ([x01; x02], [xab; xcd], Z.of_nat (List.length b));
  Sum256 := fun _ => [xe3; xb0];
  base64EncodeToString := fun _ => "AQI=";
  formatHTTPTime := fun _ => "Thu, 01 Jan 1970 00:00:00 GMT";
  verifyStandardHeaders := fun _ => None;
  xmlDecode := fun r =>
    match Http.fault r with
    | Some e => inl e
    | None =>
        if bytesEqual (Http.pending r)
             (list_byte_of_string "<Error><Code>PreconditionFailed</Code></Error>")
        then inr (Minio.mkErrorResponse "PreconditionFailed" "" "" "" "" "")
        else inl (Opaque "EOF")
    end;
  makeTargetURL := fun endpoint bucket object _ =>
    inr (endpoint ++ "/" ++ bucket ++ "/" ++ object);
  SignV4 := signer;
  execRequest := fun _ _ _ _ => inr uploadResponse;
  ExecRequest := server;
  GetObjectCleanUp := fun _ _ _ => None;
  randString := fun _ seed prefix => prefix ++ Itoa seed;
  urlParseHost := fun _ => inr "play.minio.io:9000";
  minioNew := fun _ _ _ _ => None;
  MakeBucket := fun _ _ => None;
  PutObject := fun _ _ _ _ => None;
  StatObject := fun _ _ => inr etag;
|}.

End Sample.

(** ** Vocabulary of the statements *)

Section Vocabulary.
Context {env : Collaborators}.

(** The messages the loop of [mainUploadPart] stores when it is to receive
    [count] messages from the queue [q]: those before the first error. *)
Fixpoint acceptedParts (count : nat) (q : list partChannel)
  : list partChannel :=
  match count, q with
  | S count', m :: q' =>
      match err m with
      | None => m :: acceptedParts count' q'
      | Some _ => []
      end
  | _, _ => []
  end.

(** The completed parts that the messages [ms] carry for the upload [i]. *)
Definition partsFor (i : nat) (ms : list partChannel)
  : list Complete.completePart :=
  (fun m => toCompletePart (objPart m)) <$> filter (fun m => index m = i) ms.

(** The reference [newMap] hands out on the store [w]. *)
Definition nextMap (w : world) : nat := fresh (dom (maps w)).

(** The header maps the builders fill, written out. *)
Definition putObjectHeader (md5Sum sha256Sum : list byte) : Http.Values :=
  Http.headerSet
    (Http.headerSet
       (Http.headerSet ∅ "Content-MD5" (base64EncodeToString md5Sum))
       "X-Amz-Content-Sha256" (hexEncodeToString sha256Sum))
    "User-Agent" appUserAgent.

Definition uploadPartHeader (md5Sum sha256Sum : list byte) : Http.Values :=
  Http.headerSet
    (Http.headerSet ∅ "X-Amz-Content-Sha256" (hexEncodeToString sha256Sum))
    "Content-MD5" (base64EncodeToString md5Sum).

Definition uploadPartQuery (partNumber : Z) (uploadID : string) : Http.Values :=
  Http.valuesSet (Http.valuesSet ∅ "partNumber" (Itoa partNumber))
    "uploadId" uploadID.

Definition rangeHeader (startRange endRange : Z) (sha256Sum : list byte)
  : Http.Values :=
  Http.headerSet
    (Http.headerSet
       (Http.headerSet ∅ "Range"
          ("bytes=" ++ Itoa startRange ++ "-" ++ Itoa endRange))
       "User-Agent" appUserAgent)
    "X-Amz-Content-Sha256" (hexEncodeToString sha256Sum).

Definition ifModifiedSinceHeader (lastModified : Z) (sha256Sum : list byte)
  : Http.Values :=
  Http.headerSet
    (Http.headerSet
       (Http.headerSet ∅ "X-Amz-Content-Sha256" (hexEncodeToString sha256Sum))
       "If-Modified-Since" (formatHTTPTime lastModified))
    "User-Agent" appUserAgent.

Definition ifNoneMatchHeader (ETag : string) (sha256Sum : list byte)
  : Http.Values :=
  Http.headerSet
    (Http.headerSet (Http.headerSet ∅ "If-None-Match" ETag)
       "User-Agent" appUserAgent)
    "X-Amz-Content-Sha256" (hexEncodeToString sha256Sum).

Definition removeObjectHeader (sha256Sum : list byte) : Http.Values :=
  Http.headerSet (Http.headerSet ∅ "User-Agent" appUserAgent)
    "X-Amz-Content-Sha256" (hexEncodeToString sha256Sum).

(** The store after a builder has allocated the map [v] at [nextMap w]. *)
Definition withMap (w : world) (v : Http.Values) : world :=
  mkWorld (<[nextMap w := v]> (maps w)) (requests w) (GetObjectIfMatchReq w).

(** The upload-part builder allocates two maps: the header first, the
    query values second. *)
Definition withTwoMaps (w : world) (header query : Http.Values) : world :=
  mkWorld (<[nextMap (withMap w ∅) := query]> (<[nextMap w := header]> (maps w)))
    (requests w) (GetObjectIfMatchReq w).

(** The headers that tell the GET variants apart. *)
Definition discriminatingHeaders : list string :=
  ["If-Match"; "If-None-Match"; "If-Modified-Since"; "Range"].

(** Among the discriminating headers, [h] holds [d] and no other. *)
Definition onlyDiscriminator (h : Http.Values) (d : option string) : Prop :=
  forall k, k ∈ discriminatingHeaders -> (is_Some (h !! k) <-> d = Some k).

(** The builder [b], run on the store [w], returns a request, and [P] holds
    of that request, of the header map and of the query map it refers
    to. *)
Definition builds (b : St (error + Request)) (w : world)
    (P : Request -> Http.Values -> Http.Values -> Prop) : Prop :=
  exists w' req,
    b w = Some (w', inr req)
    /\ P req (deref w' (customHeader req)) (deref w' (queryValues req)).

(** The header map behind a request pointer. *)
Definition headerOf (w : world) (p : nat) : Http.Values :=
  match requests w !! p with
  | Some r => deref w (Some (HeaderRef r))
  | None => ∅
  end.

(** The builder's run on [w] leaves the request cells, the package-level
    variable and every map of [w] as they were. *)
Definition preserves (w w' : world) : Prop :=
  requests w' = requests w
  /\ GetObjectIfMatchReq w' = GetObjectIfMatchReq w
  /\ forall l, is_Some (maps w !! l) -> maps w' !! l = maps w !! l.

(** The maps the request refers to did not exist in [w]. *)
Definition freshIn (w : world) (req : Request) : Prop :=
  (forall l, customHeader req = Some l -> maps w !! l = None)
  /\ (forall l, queryValues req = Some l -> maps w !! l = None)
  /\ (forall l, customHeader req = Some l -> queryValues req <> Some l).

(** The builder [b] does not panic on [w], preserves [w], and a request it
    returns refers to fresh maps only. *)
Definition buildsFresh (b : St (error + Request)) (w : world) : Prop :=
  exists w' r,
    b w = Some (w', r)
    /\ preserves w w'
    /\ forall req, r = inr req -> freshIn w req.

(** What the run supplies to the upload-part task of one object: the
    random buffer and what reading it returned, and the store the task
    works on. *)
Record partInput : Type := mkPartInput {
  inputData : list byte;
  inputReadErr : option error;
  inputStore : world;
}.

(** The [for i, object := range multipartObjects] loop of [mainUploadPart]:
    one task per object, started with the object's position as its index.
    The result lists the events of every task. *)
Definition uploadPartDispatch (config : ServerConfig) (bucket : string)
    (multipartObjects : list ObjectInfo) (inputs : nat -> partInput)
  : list (list event) :=
  imap (fun i object =>
          eventsOf (uploadPartTask config bucket (Key object) (UploadID object)
                      i (inputData (inputs i)) (inputReadErr (inputs i)))
            (inputStore (inputs i)))
    multipartObjects.

(** A task's events carry one part message, with index [i] and part
    number 1. *)
Definition sendsOnePart (i : nat) (t : list event) : Prop :=
  exists m, sentParts t = [m] /\ index m = i
            /\ Part.PartNumber (objPart m) = 1%Z.

End Vocabulary.

(** ** The put-object test as a whole *)

(** What the run supplies to the put-object task of one slot: the random
    body and the store the task works on. *)
Record putInput : Type := mkPutInput {
  inputBody : string;
  inputPutStore : world;
}.

(** The object a put-object task builds for the slot [cur] and the random
    string [body]. *)
Definition putObjectOf (cur : nat) (body : string) : ObjectInfo :=
  mkObjectInfo ("s3verify-put-parallel" ++ Itoa (Z.of_nat cur))
    (list_byte_of_string body) "" 0 0 "".

Section PutObjectRun.
Context {env : Collaborators}.

(** The [for i := 0; i < len(objects); i++] loop of [mainPutObject]: one
    task per slot, started with the slot as its argument.  The result lists
    the events of every task. *)
Definition putObjectDispatch (config : ServerConfig) (bucket : string)
    (slots : nat) (inputs : nat -> putInput) : list (list event) :=
  (fun cur =>
     eventsOf (putObjectTask config bucket cur (inputBody (inputs cur)))
       (inputPutStore (inputs cur)))
    <$> seq 0 slots.

End PutObjectRun.

(** The assignments to [objects] of a sequence of events, applied in the
    order of the sequence. *)
Fixpoint applyStores (reg : registry) (t : list event) : option registry :=
  match t with
  | [] => Some reg
  | StoreObject cur o :: t' =>
      match storeObject reg cur o with
      | Some reg' => applyStores reg' t'
      | None => None
      end
  | _ :: t' => applyStores reg t'
  end.

(** The cleanups a trace asks for, in order. *)
Definition cleanUps (t : list event) : list (string * string) :=
  omap (fun e => match e with CleanUp b o => Some (b, o) | _ => None end) t.

(** The events of a put-object task whose upload was verified. *)
Definition verifiedUpload (cur : nat) (body : string) : list event :=
  [Acquire 0; StoreObject cur (putObjectOf cur body); SendErr None; Release 0].

Section Answers.
Context {env : Collaborators}.

(** A response with the status [code], accepted standard headers and a
    body that reads to the end as [body]. *)
Definition answers (res : Http.Response) (code : Z) (body : list byte)
  : Prop :=
  Http.StatusCode res = code
  /\ verifyStandardHeaders (Http.Header res) = None
  /\ Http.fault (Http.Body res) = None
  /\ Http.pending (Http.Body res) = body.

End Answers.

(** * Properties *)

(** ** The verifiers *)

Section VerifierFacts.
Context {env : Collaborators}.

Lemma firstFailure_None (checks : list (option error)) :
  firstFailure checks = None <-> Forall (fun c => c = None) checks.
Proof.
  induction checks as [|c checks IH]; simpl.
  - split; [constructor | reflexivity].
  - destruct c as [e|].
    + split; [discriminate | intros H; inversion H; discriminate].
    + rewrite IH. split.
      * intros H. constructor; [reflexivity | exact H].
      * intros H. inversion H; assumption.
Qed.

Lemma firstFailure_three (a b c : option error) :
  firstFailure [a; b; c] = None <-> a = None /\ b = None /\ c = None.
Proof.
  rewrite firstFailure_None. split.
  - intros H. inversion H as [|? ? Ha H1]; subst.
    inversion H1 as [|? ? Hb H2]; subst.
    inversion H2 as [|? ? Hc H3]; subst. auto.
  - intros (-> & -> & ->). repeat constructor.
Qed.

Lemma three_checks (a b c : option error) :
  (a >>? b >>? c >>? None) = firstFailure [a; b; c].
Proof. destruct a, b, c; reflexivity. Qed.

Lemma verifyStatusCode_None (format : string) (got wanted : Z) :
  verifyStatusCode format got wanted = None <-> got = wanted.
Proof.
  unfold verifyStatusCode. destruct (Z.eqb_spec got wanted); simpl.
  - tauto.
  - split; [discriminate | contradiction].
Qed.

Lemma bytesEqual_true (a b : list byte) : bytesEqual a b = true <-> a = b.
Proof. unfold bytesEqual. apply bool_decide_eq_true. Qed.

Lemma verifyExactBody_None (format : string) (r : Http.Reader)
    (expected : list byte) :
  verifyExactBody format r expected = None
  <-> Http.fault r = None /\ Http.pending r = expected.
Proof.
  unfold verifyExactBody, Http.ReadAll.
  destruct (Http.fault r) as [e|].
  - split; [discriminate | intros [? _]; discriminate].
  - destruct (bytesEqual (Http.pending r) expected) eqn:E; simpl.
    + apply bytesEqual_true in E. tauto.
    + split; [discriminate |].
      intros [_ H]. apply bytesEqual_true in H. congruence.
Qed.

Lemma verifyEmptyBody_None (format : string) (r : Http.Reader) :
  verifyEmptyBody format r = None
  <-> Http.fault r = None /\ Http.pending r = [].
Proof.
  unfold verifyEmptyBody, Http.ReadAll.
  destruct (Http.fault r) as [e|].
  - split; [discriminate | intros [? _]; discriminate].
  - destruct (bytesEqual (Http.pending r) []) eqn:E; simpl.
    + apply bytesEqual_true in E. tauto.
    + split; [discriminate |].
      intros [_ H]. apply bytesEqual_true in H. congruence.
Qed.

(** C2 (as amended): every verifier applies its three checks in an order
    of its own that is fixed per operation and returns the error of the
    first check that fails in that order: header, status, body for
    put-object and get-object-if-none-match; body, status, header for
    upload-part; header, body, status for get-object-if-match,
    get-object-if-modified-since and remove-object.  In each of them the
    response is accepted exactly when the status check, the header check and
    the body check all pass, which is when the specification's order
    accepts it. *)
Theorem verifiers_check_in_their_own_order (res : Http.Response)
    (expectedStatusCode : Z) (expectedStatus : string)
    (expectedBody : list byte) (shouldFail : bool) :
  let hdr := Http.Header res in
  let code := Http.StatusCode res in
  let body := Http.Body res in
  (putObjectVerify res expectedStatusCode
   = firstFailure [verifyHeaderPutObject hdr;
                   verifyStatusPutObject code expectedStatusCode;
                   verifyBodyPutObject body]
   /\ (putObjectVerify res expectedStatusCode = None
       <-> statusHeadersBody (verifyStatusPutObject code expectedStatusCode)
             (verifyHeaderPutObject hdr) (verifyBodyPutObject body) = None))
  /\ (uploadPartVerify res expectedStatusCode
      = firstFailure [verifyBodyUploadPart body;
                      verifyStatusUploadPart code expectedStatusCode;
                      verifyHeaderUploadPart hdr]
      /\ (uploadPartVerify res expectedStatusCode = None
          <-> statusHeadersBody (verifyStatusUploadPart code expectedStatusCode)
                (verifyHeaderUploadPart hdr) (verifyBodyUploadPart body) = None))
  /\ (GetObjectIfMatchVerify res expectedBody expectedStatus shouldFail
      = firstFailure [VerifyHeaderGetObjectIfMatch res;
                      VerifyBodyGetObjectIfMatch res expectedBody shouldFail;
                      VerifyStatusGetObjectIfMatch res expectedStatus]
      /\ (GetObjectIfMatchVerify res expectedBody expectedStatus shouldFail = None
          <-> statusHeadersBody (VerifyStatusGetObjectIfMatch res expectedStatus)
                (VerifyHeaderGetObjectIfMatch res)
                (VerifyBodyGetObjectIfMatch res expectedBody shouldFail) = None))
  /\ (getObjectIfNoneMatchVerify res expectedBody expectedStatusCode
      = firstFailure [verifyHeaderGetObjectIfNoneMatch hdr;
                      verifyStatusGetObjectIfNoneMatch code expectedStatusCode;
                      verifyBodyGetObjectIfNoneMatch body expectedBody]
      /\ (getObjectIfNoneMatchVerify res expectedBody expectedStatusCode = None
          <-> statusHeadersBody
                (verifyStatusGetObjectIfNoneMatch code expectedStatusCode)
                (verifyHeaderGetObjectIfNoneMatch hdr)
                (verifyBodyGetObjectIfNoneMatch body expectedBody) = None))
  /\ (verifyGetObjectIfModifiedSince res expectedBody expectedStatusCode
      = firstFailure [verifyHeaderGetObjectIfModifiedSince hdr;
                      verifyBodyGetObjectIfModifiedSince body expectedBody;
                      verifyStatusGetObjectIfModifiedSince code expectedStatusCode]
      /\ (verifyGetObjectIfModifiedSince res expectedBody expectedStatusCode = None
          <-> statusHeadersBody
                (verifyStatusGetObjectIfModifiedSince code expectedStatusCode)
                (verifyHeaderGetObjectIfModifiedSince hdr)
                (verifyBodyGetObjectIfModifiedSince body expectedBody) = None))
  /\ (removeObjectVerify res expectedStatusCode
      = firstFailure [verifyHeaderRemoveObject hdr;
                      verifyBodyRemoveObject body;
                      verifyStatusRemoveObject code expectedStatusCode]
      /\ (removeObjectVerify res expectedStatusCode = None
          <-> statusHeadersBody (verifyStatusRemoveObject code expectedStatusCode)
                (verifyHeaderRemoveObject hdr) (verifyBodyRemoveObject body) = None)).
Proof.
  intros hdr code body.
  unfold putObjectVerify, uploadPartVerify, GetObjectIfMatchVerify,
    getObjectIfNoneMatchVerify, verifyGetObjectIfModifiedSince,
    removeObjectVerify, statusHeadersBody.
  fold hdr code body.
  rewrite !three_checks, !firstFailure_three.
  repeat split; tauto.
Qed.

(** C2 (as stated) fails: on a response with an unexpected status code and
    a body that is not empty, [uploadPartVerify] reports the body, while the
    order status, headers, body reports the status. *)
Lemma upload_part_verify_reports_body_before_status :
  let res := Http.mkResponse "500 Internal Server Error" 500 ∅
               (Http.mkReader [x41] None) in
  uploadPartVerify (env := Sample.env) res 200
  = Some (Errorf "Unexpected Body Received: %v" [VBytes [x41]])
  /\ statusHeadersBody
       (verifyStatusUploadPart 500 200)
       (verifyHeaderUploadPart (env := Sample.env) ∅)
       (verifyBodyUploadPart (Http.mkReader [x41] None))
     = Some (Errorf "Unexpected Status Received: wanted %v, got %v"
               [VInt 200; VInt 500])
  /\ uploadPartVerify (env := Sample.env) res 200
     <> statusHeadersBody
          (verifyStatusUploadPart (Http.StatusCode res) 200)
          (verifyHeaderUploadPart (env := Sample.env) (Http.Header res))
          (verifyBodyUploadPart (Http.Body res)).
Proof.
  cbv zeta. split; [reflexivity | split; [reflexivity | discriminate]].
Qed.

(** [GetObjectIfMatchVerify] with the arguments [mainGetObjectIfMatch]
    passes for the request that must fail. *)
Lemma GetObjectIfMatchVerify_must_fail (res : Http.Response) :
  (GetObjectIfMatchVerify res [] "412 Precondition Failed" true = None
   <-> verifyStandardHeaders (Http.Header res) = None
       /\ (exists errBody,
             xmlDecode (Http.Body res) = inr errBody
             /\ Minio.Code errBody = "PreconditionFailed")
       /\ Http.Status res = "412 Precondition Failed")
  /\ (forall errBody,
        verifyStandardHeaders (Http.Header res) = None ->
        xmlDecode (Http.Body res) = inr errBody ->
        Minio.Code errBody <> "PreconditionFailed" ->
        GetObjectIfMatchVerify res [] "412 Precondition Failed" true
        = Some (Errorf
                  "Unexpected Error Response: wanted PreconditionFailed, got %v"
                  [VStr (Minio.Code errBody)])).
Proof.
  unfold GetObjectIfMatchVerify, VerifyHeaderGetObjectIfMatch,
    VerifyBodyGetObjectIfMatch, VerifyStatusGetObjectIfMatch.
  split.
  - destruct (verifyStandardHeaders (Http.Header res)) as [e|]; simpl.
    { split; [discriminate | intros [? _]; discriminate]. }
    destruct (xmlDecode (Http.Body res)) as [e|errBody]; simpl.
    { split; [discriminate | intros (_ & (? & ? & _) & _); discriminate]. }
    destruct (String.eqb_spec (Minio.Code errBody) "PreconditionFailed")
      as [Hc|Hc]; simpl.
    + destruct (String.eqb_spec (Http.Status res) "412 Precondition Failed")
        as [Hs|Hs]; simpl.
      * split; [| reflexivity]. intros _. repeat split; eauto.
      * split; [discriminate | intros (_ & _ & ?); contradiction].
    + split; [discriminate |].
      intros (_ & (errBody' & Heq & Hcode) & _). congruence.
  - intros errBody Hh Hd Hc. rewrite Hh, Hd. simpl.
    destruct (String.eqb_spec (Minio.Code errBody) "PreconditionFailed");
      [contradiction | reflexivity].
Qed.

End VerifierFacts.

(** ** The aggregation loops *)

Lemma partsFor_nil (i : nat) : partsFor i [] = [].
Proof. reflexivity. Qed.

Lemma partsFor_cons (i : nat) (m : partChannel) (ms : list partChannel) :
  partsFor i (m :: ms)
  = if decide (index m = i)
    then toCompletePart (objPart m) :: partsFor i ms
    else partsFor i ms.
Proof.
  unfold partsFor. rewrite filter_cons.
  destruct (decide (index m = i)); reflexivity.
Qed.

Lemma awaitErrors_abort (pre post : list (option error)) (e : error)
    (isClosed : bool) :
  forall count,
    Forall (fun m => m = None) pre ->
    (List.length pre < count)%nat ->
    awaitErrors count (mkChan (pre ++ Some e :: post)%list isClosed)
    = (Aborted (Some e), mkChan post isClosed).
Proof.
  induction pre as [|m pre IH]; intros count Hpre Hlt.
  - destruct count as [|count]; [simpl in Hlt; lia | reflexivity].
  - inversion Hpre as [|? ? Hm Hrest]; subst.
    destruct count as [|count]; [simpl in Hlt; lia |].
    simpl. apply IH; [assumption | simpl in Hlt; lia].
Qed.

Lemma awaitErrors_drain (pre post : list (option error)) (isClosed : bool) :
  Forall (fun m => m = None) pre ->
  awaitErrors (List.length pre) (mkChan (pre ++ post)%list isClosed)
  = (Drained, mkChan post isClosed).
Proof.
  induction pre as [|m pre IH]; intros Hpre.
  - reflexivity.
  - inversion Hpre as [|? ? Hm Hrest]; subst. simpl. apply IH. assumption.
Qed.

(** What the loop of [mainUploadPart] leaves in the uploads: the slot count
    is kept, and every slot holds its former parts followed by the parts of
    the accepted messages that carry its index, in the order received. *)
Lemma awaitParts_slots (count : nat) :
  forall (q : list partChannel) (isClosed : bool) (reg : registry),
    Forall (fun m => (index m < List.length (complMultipartUploads reg))%nat) q ->
    let reg' := snd (awaitParts count (mkChan q isClosed) reg) in
    List.length (complMultipartUploads reg')
    = List.length (complMultipartUploads reg)
    /\ forall i,
         Complete.Parts <$> (complMultipartUploads reg' !! i)
         = (fun u => (Complete.Parts u ++ partsFor i (acceptedParts count q))%list)
             <$> (complMultipartUploads reg !! i).
Proof.
  induction count as [|count IH]; intros q isClosed reg Hq; simpl.
  - split; [reflexivity |]. intros i.
    destruct q; simpl; rewrite partsFor_nil;
      destruct (complMultipartUploads reg !! i); simpl;
      rewrite ?app_nil_r; reflexivity.
  - destruct q as [|m q]; simpl.
    { destruct isClosed; simpl; (split; [reflexivity |]); intros i;
        rewrite partsFor_nil;
        destruct (complMultipartUploads reg !! i); simpl;
        rewrite ?app_nil_r; reflexivity. }
    inversion Hq as [|? ? Hm Hrest]; subst.
    destruct (err m) as [e|] eqn:Herr; simpl.
    { split; [reflexivity |]. intros i. rewrite partsFor_nil.
      destruct (complMultipartUploads reg !! i); simpl;
        rewrite ?app_nil_r; reflexivity. }
    destruct (lookup_lt_is_Some_2 _ _ Hm) as [upload Hup].
    rewrite Hup.
    set (reg1 := mkRegistry _ _ _).
    assert (Hlen1 : List.length (complMultipartUploads reg1)
                    = List.length (complMultipartUploads reg)).
    { unfold reg1. simpl. apply length_insert. }
    specialize (IH q isClosed reg1).
    rewrite Hlen1 in IH. specialize (IH Hrest).
    destruct IH as [IHlen IHslots].
    split; [exact IHlen |].
    intros i. rewrite IHslots, partsFor_cons.
    unfold reg1. simpl.
    destruct (decide (index m = i)) as [Heq|Hne].
    + subst i. rewrite list_lookup_insert_eq by exact Hm.
      rewrite Hup. simpl. rewrite <- app_assoc. reflexivity.
    + rewrite list_lookup_insert_ne by exact Hne. reflexivity.
Qed.

Lemma awaitParts_abort (pre post : list partChannel) (m : partChannel)
    (e : error) (isClosed : bool) :
  forall count reg,
    Forall (fun m => err m = None
                     /\ (index m < List.length (complMultipartUploads reg))%nat)
      pre ->
    err m = Some e ->
    (List.length pre < count)%nat ->
    exists reg',
      awaitParts count (mkChan (pre ++ m :: post)%list isClosed) reg
      = (Aborted (Some e), mkChan post isClosed, reg').
Proof.
  induction pre as [|m0 pre IH]; intros count reg Hpre Hm Hlt.
  - destruct count as [|count]; [simpl in Hlt; lia |].
    simpl. rewrite Hm. eauto.
  - inversion Hpre as [|? ? [Herr Hidx] Hrest]; subst.
    destruct count as [|count]; [simpl in Hlt; lia |].
    simpl. rewrite Herr.
    destruct (lookup_lt_is_Some_2 _ _ Hidx) as [upload Hup]. rewrite Hup.
    apply IH; [| assumption | simpl in Hlt; lia].
    simpl. rewrite length_insert. exact Hrest.
Qed.

Lemma awaitParts_drain (pre post : list partChannel) (isClosed : bool) :
  forall reg,
    Forall (fun m => err m = None
                     /\ (index m < List.length (complMultipartUploads reg))%nat)
      pre ->
    exists reg',
      awaitParts (List.length pre) (mkChan (pre ++ post)%list isClosed) reg
      = (Drained, mkChan post isClosed, reg').
Proof.
  induction pre as [|m0 pre IH]; intros reg Hpre.
  - simpl. eauto.
  - inversion Hpre as [|? ? [Herr Hidx] Hrest]; subst.
    simpl. rewrite Herr.
    destruct (lookup_lt_is_Some_2 _ _ Hidx) as [upload Hup]. rewrite Hup.
    apply IH. simpl. rewrite length_insert. exact Hrest.
Qed.

Lemma acceptedParts_all (q : list partChannel) :
  Forall (fun m => err m = None) q ->
  acceptedParts (List.length q) q = q.
Proof.
  induction q as [|m q IH]; intros Hq; [reflexivity |].
  inversion Hq as [|? ? Hm Hrest]; subst.
  simpl. rewrite Hm, IH by assumption. reflexivity.
Qed.

Lemma filter_index_short (i : nat) (q : list partChannel) :
  NoDup (index <$> q) ->
  (List.length (filter (fun m => index m = i) q) <= 1)%nat.
Proof.
  induction q as [|m q IH]; intros Hnd; [simpl; lia |].
  rewrite fmap_cons in Hnd. apply NoDup_cons in Hnd as [Hnotin Hnd].
  rewrite filter_cons. destruct (decide (index m = i)) as [Heq|Hne].
  - assert (Hnone : filter (fun m0 => index m0 = i) q = []).
    { destruct (filter (fun m0 => index m0 = i) q) as [|m' l] eqn:E;
        [reflexivity |].
      exfalso. apply Hnotin.
      assert (Hin : m' ∈ filter (fun m0 => index m0 = i) q)
        by (rewrite E; left).
      apply list_elem_of_filter in Hin as [Hidx Hin].
      rewrite Heq, <- Hidx. apply list_elem_of_fmap. eauto. }
    rewrite Hnone. simpl. lia.
  - apply IH. exact Hnd.
Qed.

Lemma short_permutation_eq {A} (l1 l2 : list A) :
  l1 ≡ₚ l2 -> (List.length l1 <= 1)%nat -> l1 = l2.
Proof.
  intros Hp Hlen.
  destruct l1 as [|a [|b l1]]; simpl in Hlen; [| | lia].
  - symmetry. apply Permutation.Permutation_nil. exact Hp.
  - symmetry. apply Permutation.Permutation_length_1_inv. exact Hp.
Qed.

Lemma partsFor_permutation (i : nat) (q1 q2 : list partChannel) :
  q1 ≡ₚ q2 ->
  NoDup (index <$> q1) ->
  partsFor i q1 = partsFor i q2.
Proof.
  intros Hp Hnd. unfold partsFor. f_equal.
  apply short_permutation_eq.
  - rewrite Hp. reflexivity.
  - apply filter_index_short. exact Hnd.
Qed.

Lemma uploads_eq_by_parts (l1 l2 : list Complete.completeMultipartUpload) :
  (forall i, Complete.Parts <$> (l1 !! i) = Complete.Parts <$> (l2 !! i)) ->
  l1 = l2.
Proof.
  intros H. apply list_eq. intros i. specialize (H i).
  destruct (l1 !! i) as [[p1]|], (l2 !! i) as [[p2]|]; simpl in H;
    congruence.
Qed.

(** C3 (as amended): in the receiving loops of [mainPutObject] and
    [mainRemoveObjectExists] (the loop [awaitErrors]) and of
    [mainUploadPart] (the loop [awaitParts]), the first error in receive
    order makes the test function return [false] at once, with that error
    printed: the loop has then received exactly the results up to and
    including the failing one and leaves the later results on the channel.
    Only when none of the first [count] results carries an error does a loop
    receive all of them. *)
Theorem first_error_ends_the_loop
    (pre post : list (option error)) (partsPre partsPost : list partChannel)
    (m : partChannel) (e : error) (isClosed : bool) (count : nat)
    (reg : registry) :
  Forall (fun r => r = None) pre ->
  Forall (fun r => err r = None
                   /\ (index r < List.length (complMultipartUploads reg))%nat)
    partsPre ->
  err m = Some e ->
  (List.length pre < count)%nat ->
  (List.length partsPre < count)%nat ->
  awaitErrors count (mkChan (pre ++ Some e :: post)%list isClosed)
  = (Aborted (Some e), mkChan post isClosed)
  /\ (forall buckets nCopyObjects nMultipartObjects,
        awaitRemovals (S buckets) count nCopyObjects nMultipartObjects
          (mkChan (pre ++ Some e :: post)%list isClosed)
        = (Aborted (Some e), mkChan post isClosed))
  /\ (exists reg',
        awaitParts count (mkChan (partsPre ++ m :: partsPost)%list isClosed) reg
        = (Aborted (Some e), mkChan partsPost isClosed, reg'))
  /\ testResult (Aborted (Some e)) = Some false
  /\ awaitErrors (List.length pre) (mkChan (pre ++ post)%list isClosed)
     = (Drained, mkChan post isClosed)
  /\ (exists reg',
        awaitParts (List.length partsPre)
          (mkChan (partsPre ++ partsPost)%list isClosed) reg
        = (Drained, mkChan partsPost isClosed, reg')).
Proof.
  intros Hpre Hparts Hm Hlt HltParts.
  pose proof (awaitErrors_abort pre post e isClosed count Hpre Hlt) as Habort.
  split; [exact Habort |].
  split.
  { intros buckets nC nM. simpl. rewrite Habort. reflexivity. }
  split; [apply awaitParts_abort; assumption |].
  split; [reflexivity |].
  split; [apply awaitErrors_drain; assumption |].
  apply awaitParts_drain. assumption.
Qed.

Lemma first_error_ends_the_loop_witness :
  let e := Opaque "connection reset" in
  let ok0 := mkPartChannel 0 (Part.mk 1 "a" 4194304) None in
  let bad := mkPartChannel 1 (Part.mk 1 "" 4194304) (Some e) in
  awaitErrors 3 (mkChan [None; Some e; None] false)
  = (Aborted (Some e), mkChan [None] false)
  /\ (exists reg',
        awaitParts 3 (mkChan [ok0; bad] false) initialRegistry
        = (Aborted (Some e), mkChan [] false, reg')).
Proof.
  cbv zeta.
  pose proof (first_error_ends_the_loop
                [None] [None]
                [mkPartChannel 0 (Part.mk 1 "a" 4194304) None] []
                (mkPartChannel 1 (Part.mk 1 "" 4194304)
                   (Some (Opaque "connection reset")))
                (Opaque "connection reset") false 3 initialRegistry) as H.
  destruct H as (H1 & _ & H3 & _).
  - repeat constructor.
  - repeat constructor; simpl; lia.
  - reflexivity.
  - simpl; lia.
  - simpl; lia.
  - split; [exact H1 | exact H3].
Defined.

(** C3 (as stated) fails: with three results to receive of which the first
    carries an error, the loops return after that first receive and the
    other two results stay on the channel. *)
Lemma loop_returns_before_all_results_are_received :
  let e := Opaque "connection reset" in
  let part := Part.mk 1 "" 4194304 in
  awaitErrors 3 (mkChan [Some e; None; None] false)
  = (Aborted (Some e), mkChan [None; None] false)
  /\ awaitParts 3
       (mkChan [mkPartChannel 0 part (Some e); mkPartChannel 1 part None;
                mkPartChannel 2 part None] false)
       initialRegistry
     = (Aborted (Some e),
        mkChan [mkPartChannel 1 part None; mkPartChannel 2 part None] false,
        initialRegistry).
Proof. cbv zeta. split; reflexivity. Qed.

(** C6: the loop of [mainUploadPart] appends the part of every result it
    accepts to the [Parts] of the upload at the result's own index, so every
    upload ends with its former parts followed by the parts tagged with its
    index; when every task reports once and without an error, the uploads
    end the same whatever the order in which the results are received. *)
Theorem parts_land_in_the_slot_of_their_index (count : nat)
    (partCh : chan partChannel) (reg : registry) :
  Forall (fun m => (index m < List.length (complMultipartUploads reg))%nat)
    (queue partCh) ->
  let reg' := snd (awaitParts count partCh reg) in
  (forall i,
     Complete.Parts <$> (complMultipartUploads reg' !! i)
     = (fun u => (Complete.Parts u
                  ++ partsFor i (acceptedParts count (queue partCh)))%list)
         <$> (complMultipartUploads reg !! i))
  /\ (forall otherOrder : chan partChannel,
        queue partCh ≡ₚ queue otherOrder ->
        NoDup (index <$> queue partCh) ->
        Forall (fun m => err m = None) (queue partCh) ->
        count = List.length (queue partCh) ->
        complMultipartUploads (snd (awaitParts count otherOrder reg))
        = complMultipartUploads reg').
Proof.
  intros Hq reg'. subst reg'.
  destruct partCh as [q isClosed]. simpl in *.
  split; [apply (awaitParts_slots count q isClosed reg Hq) |].
  intros [q2 isClosed2] Hperm Hnd Hok Hcount. simpl in *.
  assert (Hq2 : Forall (fun m => (index m
                 < List.length (complMultipartUploads reg))%nat) q2)
    by (rewrite <- Hperm; exact Hq).
  assert (Hok2 : Forall (fun m => err m = None) q2)
    by (rewrite <- Hperm; exact Hok).
  apply uploads_eq_by_parts. intros i.
  rewrite (proj2 (awaitParts_slots count q2 isClosed2 reg Hq2) i).
  rewrite (proj2 (awaitParts_slots count q isClosed reg Hq) i).
  subst count. rewrite (acceptedParts_all q Hok).
  rewrite (Permutation_length Hperm), (acceptedParts_all q2 Hok2).
  rewrite (partsFor_permutation i q q2 Hperm Hnd). reflexivity.
Qed.

Lemma parts_land_in_the_slot_of_their_index_witness :
  let late := mkPartChannel 1 (Part.mk 1 "etag-of-second" 4194304) None in
  let early := mkPartChannel 0 (Part.mk 1 "etag-of-first" 4200000) None in
  Complete.Parts
    <$> (complMultipartUploads
           (snd (awaitParts 2 (mkChan [late; early] false) initialRegistry))
         !! 1%nat)
  = Some [Complete.mk "etag-of-second" 1].
Proof.
  cbv zeta.
  pose proof (parts_land_in_the_slot_of_their_index 2
                (mkChan [mkPartChannel 1 (Part.mk 1 "etag-of-second" 4194304) None;
                         mkPartChannel 0 (Part.mk 1 "etag-of-first" 4200000) None]
                   false)
                initialRegistry) as H.
  destruct H as [H _].
  - repeat constructor; simpl; lia.
  - rewrite (H 1%nat). reflexivity.
Defined.

(** ** The request builders *)

Section BuilderFacts.
Context {env : Collaborators}.

Lemma nextMap_fresh (w : world) : maps w !! nextMap w = None.
Proof.
  unfold nextMap. apply (not_elem_of_dom (D := gset nat)).
  exact (is_fresh (dom (maps w))).
Qed.

Lemma newMap_run (w : world) :
  newMap w
  = Some (mkWorld (<[nextMap w := ∅]> (maps w)) (requests w)
            (GetObjectIfMatchReq w), nextMap w).
Proof. reflexivity. Qed.

Lemma updMap_top (l : nat) (f : Http.Values -> Http.Values) (v : Http.Values)
    (m : gmap nat Http.Values) (r : gmap nat HttpRequest) (g : nat) :
  updMap l f (mkWorld (<[l := v]> m) r g)
  = Some (mkWorld (<[l := f v]> m) r g, tt).
Proof.
  unfold updMap. simpl. rewrite lookup_insert_eq, insert_insert_eq.
  reflexivity.
Qed.

Lemma updMap_under (l l2 : nat) (f : Http.Values -> Http.Values)
    (v v2 : Http.Values) (m : gmap nat Http.Values)
    (r : gmap nat HttpRequest) (g : nat) :
  l ≠ l2 ->
  updMap l f (mkWorld (<[l2 := v2]> (<[l := v]> m)) r g)
  = Some (mkWorld (<[l2 := v2]> (<[l := f v]> m)) r g, tt).
Proof.
  intros Hne. unfold updMap. simpl.
  rewrite lookup_insert_ne by congruence. rewrite lookup_insert_eq.
  rewrite (insert_insert_ne _ l l2) by exact Hne.
  rewrite insert_insert_eq. reflexivity.
Qed.

Ltac run_builder :=
  unfold stBind, stRet, headerSetAt, valuesSetAt;
  rewrite ?newMap_run; cbv beta iota;
  repeat (rewrite updMap_top; cbv beta iota);
  try reflexivity.

Lemma newPutObjectReq_run (config : ServerConfig) (bucket object : string)
    (data : list byte) (w : world) :
  newPutObjectReq config bucket object data w
  = match computeHash data with
    | inl e => Some (withMap w ∅, inl e)
    | inr (md5Sum, sha256Sum, len) =>
        Some (withMap w (putObjectHeader md5Sum sha256Sum),
              inr (mkRequest bucket object None (Some (nextMap w))
                     (Some data) len))
    end.
Proof.
  unfold newPutObjectReq, withMap, putObjectHeader.
  destruct (computeHash data) as [e|[[md5Sum sha256Sum] len]]; run_builder.
Qed.

Lemma newGetObjectRangeReq_run (config : ServerConfig) (bucket object : string)
    (startRange endRange : Z) (w : world) :
  newGetObjectRangeReq config bucket object startRange endRange w
  = match computeHash [] with
    | inl e => Some (withMap w ∅, inl e)
    | inr (_, sha256Sum, _) =>
        Some (withMap w (rangeHeader startRange endRange sha256Sum),
              inr (mkRequest bucket object None (Some (nextMap w)) None 0))
    end.
Proof.
  unfold newGetObjectRangeReq, withMap, rangeHeader.
  destruct (computeHash []) as [e|[[md5Sum sha256Sum] len]]; run_builder.
Qed.

Lemma newGetObjectIfModifiedSinceReq_run (config : ServerConfig)
    (bucket object : string) (lastModified : Z) (w : world) :
  newGetObjectIfModifiedSinceReq config bucket object lastModified w
  = match computeHash [] with
    | inl e => Some (withMap w ∅, inl e)
    | inr (_, sha256Sum, _) =>
        Some (withMap w (ifModifiedSinceHeader lastModified sha256Sum),
              inr (mkRequest bucket object None (Some (nextMap w)) None 0))
    end.
Proof.
  unfold newGetObjectIfModifiedSinceReq, withMap, ifModifiedSinceHeader.
  destruct (computeHash []) as [e|[[md5Sum sha256Sum] len]]; run_builder.
Qed.

Lemma newGetObjectIfNoneMatchReq_run (config : ServerConfig)
    (bucket object ETag : string) (w : world) :
  newGetObjectIfNoneMatchReq config bucket object ETag w
  = match computeHash [] with
    | inl e => Some (withMap w ∅, inl e)
    | inr (_, sha256Sum, _) =>
        Some (withMap w (ifNoneMatchHeader ETag sha256Sum),
              inr (mkRequest bucket object None (Some (nextMap w)) None 0))
    end.
Proof.
  unfold newGetObjectIfNoneMatchReq, withMap, ifNoneMatchHeader.
  destruct (computeHash []) as [e|[[md5Sum sha256Sum] len]]; run_builder.
Qed.

Lemma newRemoveObjectReq_run (config : ServerConfig) (bucket object : string)
    (w : world) :
  newRemoveObjectReq config bucket object w
  = match computeHash [] with
    | inl e => Some (withMap w ∅, inl e)
    | inr (_, sha256Sum, _) =>
        Some (withMap w (removeObjectHeader sha256Sum),
              inr (mkRequest bucket object None (Some (nextMap w)) None 0))
    end.
Proof.
  unfold newRemoveObjectReq, withMap, removeObjectHeader.
  destruct (computeHash []) as [e|[[md5Sum sha256Sum] len]]; run_builder.
Qed.

Lemma nextMap_distinct (w : world) : nextMap w ≠ nextMap (withMap w ∅).
Proof.
  intros Heq. pose proof (nextMap_fresh (withMap w ∅)) as Hf.
  rewrite <- Heq in Hf. unfold withMap in Hf. simpl in Hf.
  rewrite lookup_insert_eq in Hf. discriminate.
Qed.

Lemma newUploadPartReq_run (config : ServerConfig)
    (bucket object uploadID : string) (partNumber : Z) (data : list byte)
    (w : world) :
  newUploadPartReq config bucket object uploadID partNumber data w
  = match computeHash data with
    | inl e =>
        Some (withTwoMaps w ∅ (uploadPartQuery partNumber uploadID), inl e)
    | inr (md5Sum, sha256Sum, len) =>
        Some (withTwoMaps w (uploadPartHeader md5Sum sha256Sum)
                (uploadPartQuery partNumber uploadID),
              inr (mkRequest bucket object (Some (nextMap (withMap w ∅)))
                     (Some (nextMap w)) (Some data) len))
    end.
Proof.
  unfold newUploadPartReq, withTwoMaps, uploadPartHeader, uploadPartQuery.
  pose proof (nextMap_distinct w) as Hne.
  unfold stBind at 1. rewrite newMap_run.
  unfold stBind at 1. rewrite newMap_run. fold (withMap w ∅).
  unfold withMap at 1 2. simpl maps. simpl requests.
  simpl GetObjectIfMatchReq.
  unfold stBind at 1, valuesSetAt at 1. rewrite updMap_top.
  unfold stBind at 1, valuesSetAt at 1. rewrite updMap_top.
  destruct (computeHash data) as [e|[[md5Sum sha256Sum] len]].
  - reflexivity.
  - unfold stBind at 1, headerSetAt at 1.
    rewrite (updMap_under _ _ _ _ _ _ _ _ Hne).
    unfold stBind at 1, headerSetAt at 1.
    rewrite (updMap_under _ _ _ _ _ _ _ _ Hne).
    reflexivity.
Qed.

End BuilderFacts.

Section BuilderTheorems.
Context {env : Collaborators}.

Lemma canonical_keys :
  Http.CanonicalMIMEHeaderKey "User-Agent" = "User-Agent"
  /\ Http.CanonicalMIMEHeaderKey "X-Amz-Content-Sha256" = "X-Amz-Content-Sha256"
  /\ Http.CanonicalMIMEHeaderKey "Content-MD5" = "Content-Md5"
  /\ Http.CanonicalMIMEHeaderKey "Range" = "Range"
  /\ Http.CanonicalMIMEHeaderKey "If-None-Match" = "If-None-Match"
  /\ Http.CanonicalMIMEHeaderKey "If-Modified-Since" = "If-Modified-Since".
Proof. repeat split; vm_compute; reflexivity. Qed.

Lemma deref_withMap (w : world) (v : Http.Values) :
  deref (withMap w v) (Some (nextMap w)) = v.
Proof. unfold deref, withMap. simpl. rewrite lookup_insert_eq. reflexivity. Qed.

Lemma deref_withTwoMaps_header (w : world) (h q : Http.Values) :
  deref (withTwoMaps w h q) (Some (nextMap w)) = h.
Proof.
  unfold deref, withTwoMaps. simpl.
  rewrite lookup_insert_ne by (symmetry; apply nextMap_distinct).
  rewrite lookup_insert_eq. reflexivity.
Qed.

Lemma deref_withTwoMaps_query (w : world) (h q : Http.Values) :
  deref (withTwoMaps w h q) (Some (nextMap (withMap w ∅))) = q.
Proof. unfold deref, withTwoMaps. simpl. rewrite lookup_insert_eq. reflexivity. Qed.

Ltac header_lookup :=
  unfold putObjectHeader, uploadPartHeader, uploadPartQuery, rangeHeader,
    ifModifiedSinceHeader, ifNoneMatchHeader, removeObjectHeader,
    Http.headerSet, Http.valuesSet;
  let E1 := fresh in let E2 := fresh in let E3 := fresh in
  let E4 := fresh in let E5 := fresh in let E6 := fresh in
  destruct canonical_keys as (E1 & E2 & E3 & E4 & E5 & E6);
  rewrite ?E1, ?E2, ?E3, ?E4, ?E5, ?E6; clear E1 E2 E3 E4 E5 E6;
  repeat first
    [ rewrite lookup_insert_eq
    | rewrite lookup_insert_ne by discriminate
    | rewrite lookup_empty ].

Ltac discriminator_cases :=
  let k := fresh "k" in
  let Hk := fresh "Hk" in
  intros k Hk; unfold discriminatingHeaders in Hk;
  repeat (apply elem_of_cons in Hk as [->|Hk]);
  [ .. | apply elem_of_nil in Hk; contradiction ];
  header_lookup;
  (split; [ intros Hs; first [ reflexivity | destruct Hs; discriminate ]
          | intros Hd; first [ discriminate | eexists; reflexivity ] ]).

(** What the six constructors over [Request] put into the header and query
    maps of the request they return, when the digest succeeds. *)
Lemma constructors_headers
    (config : ServerConfig) (bucket object uploadID ETag : string)
    (partNumber startRange endRange lastModified : Z)
    (data md5Sum sha256Sum emptyMd5 emptySha256 : list byte)
    (len emptyLen : Z) (w : world) :
  computeHash data = inr (md5Sum, sha256Sum, len) ->
  computeHash [] = inr (emptyMd5, emptySha256, emptyLen) ->
  builds (newPutObjectReq config bucket object data) w (fun _ h q =>
    h !! "User-Agent" = Some [appUserAgent]
    /\ h !! "X-Amz-Content-Sha256" = Some [hexEncodeToString sha256Sum]
    /\ onlyDiscriminator h None
    /\ q = ∅)
  /\ builds (newRemoveObjectReq config bucket object) w (fun _ h q =>
       h !! "User-Agent" = Some [appUserAgent]
       /\ h !! "X-Amz-Content-Sha256" = Some [hexEncodeToString emptySha256]
       /\ onlyDiscriminator h None
       /\ q = ∅)
  /\ builds (newGetObjectIfNoneMatchReq config bucket object ETag) w (fun _ h q =>
       h !! "User-Agent" = Some [appUserAgent]
       /\ h !! "X-Amz-Content-Sha256" = Some [hexEncodeToString emptySha256]
       /\ h !! "If-None-Match" = Some [ETag]
       /\ onlyDiscriminator h (Some "If-None-Match")
       /\ q = ∅)
  /\ builds (newGetObjectIfModifiedSinceReq config bucket object lastModified) w
       (fun _ h q =>
          h !! "User-Agent" = Some [appUserAgent]
          /\ h !! "X-Amz-Content-Sha256" = Some [hexEncodeToString emptySha256]
          /\ h !! "If-Modified-Since" = Some [formatHTTPTime lastModified]
          /\ onlyDiscriminator h (Some "If-Modified-Since")
          /\ q = ∅)
  /\ builds (newGetObjectRangeReq config bucket object startRange endRange) w
       (fun _ h q =>
          h !! "User-Agent" = Some [appUserAgent]
          /\ h !! "X-Amz-Content-Sha256" = Some [hexEncodeToString emptySha256]
          /\ h !! "Range"
             = Some ["bytes=" ++ Itoa startRange ++ "-" ++ Itoa endRange]
          /\ onlyDiscriminator h (Some "Range")
          /\ q = ∅)
  /\ builds (newUploadPartReq config bucket object uploadID partNumber data) w
       (fun _ h q =>
          h !! "User-Agent" = None
          /\ h !! "X-Amz-Content-Sha256" = Some [hexEncodeToString sha256Sum]
          /\ onlyDiscriminator h None
          /\ q !! "partNumber" = Some [Itoa partNumber]
          /\ q !! "uploadId" = Some [uploadID]).
Proof.
  intros Hdata Hempty. unfold builds.
  rewrite newPutObjectReq_run, newRemoveObjectReq_run,
    newGetObjectIfNoneMatchReq_run, newGetObjectIfModifiedSinceReq_run,
    newGetObjectRangeReq_run, newUploadPartReq_run.
  rewrite Hdata, Hempty.
  split_and!.
  all: do 2 eexists; (split; [reflexivity |]); cbn [customHeader queryValues].
  all: rewrite ?deref_withMap, ?deref_withTwoMaps_header,
         ?deref_withTwoMaps_query.
  all: split_and!; try reflexivity.
  all: try (header_lookup; reflexivity).
  all: discriminator_cases.
Qed.

(** A request that [newUploadPartReq] returns carries the part number and
    the upload id as its query, and the data as its body. *)
Lemma newUploadPartReq_query (config : ServerConfig)
    (bucket object uploadID : string) (partNumber : Z) (data : list byte)
    (w w' : world) (req : Request) :
  newUploadPartReq config bucket object uploadID partNumber data w
  = Some (w', inr req) ->
  deref w' (queryValues req) !! "partNumber" = Some [Itoa partNumber]
  /\ deref w' (queryValues req) !! "uploadId" = Some [uploadID]
  /\ contentBody req = Some data.
Proof.
  intros Hb. rewrite newUploadPartReq_run in Hb.
  destruct (computeHash data) as [e|[[md5Sum sha256Sum] len]];
    [discriminate |].
  injection Hb as <- <-. cbn [queryValues contentBody].
  rewrite deref_withTwoMaps_query.
  split_and!; try reflexivity; header_lookup; reflexivity.
Qed.

(** The request that [NewGetObjectIfMatchReq] hands to the signer, when
    the package-level request is still the one the program starts with. *)
Lemma NewGetObjectIfMatchReq_headers (config : ServerConfig)
    (bucket object ETag targetURL : string) :
  makeTargetURL (Endpoint config) bucket object (Region config)
  = inr targetURL ->
  exists w1 h,
    NewGetObjectIfMatchReq config bucket object ETag initialWorld
    = (q <~ SignV4 (mkHttpRequest "GET" (Some targetURL) 0) (Access config)
              (Secret config) (Region config) ;;
       _ <~ writeGlobal q ;;
       q' <~ readGlobal ;;
       stRet (inr q')) w1
    /\ requests w1 !! 0%nat = Some (mkHttpRequest "GET" (Some targetURL) 0)
    /\ maps w1 !! 0%nat = Some h
    /\ h !! "User-Agent" = None
    /\ h !! "X-Amz-Content-Sha256" = Some [hexEncodeToString (Sum256 [])]
    /\ h !! "If-Match" = Some [ETag]
    /\ onlyDiscriminator h (Some "If-Match").
Proof.
  intros Hurl. unfold NewGetObjectIfMatchReq. rewrite Hurl.
  eexists. eexists.
  split.
  { unfold stBind at 1. unfold readGlobal at 1.
    unfold stBind at 1. unfold loadRequest at 1.
    cbn [requests initialWorld GetObjectIfMatchReq].
    rewrite lookup_singleton_eq.
    unfold stBind at 1. unfold valuesSetAt, updMap.
    cbn [maps HeaderRef initialWorld requests GetObjectIfMatchReq].
    rewrite lookup_singleton_eq.
    unfold stBind at 1. unfold storeRequest at 1.
    cbn [maps HeaderRef Method initialWorld requests GetObjectIfMatchReq].
    rewrite lookup_singleton_eq.
    unfold stBind at 1. unfold loadRequest at 1.
    cbn [maps HeaderRef Method initialWorld requests GetObjectIfMatchReq].
    rewrite lookup_insert_eq.
    reflexivity. }
  cbn [maps requests].
  split; [apply lookup_insert_eq |].
  split; [apply lookup_insert_eq |].
  unfold Http.valuesSet.
  split_and!.
  - repeat first [ rewrite lookup_insert_ne by discriminate
                 | rewrite lookup_singleton_ne by discriminate ].
    try rewrite lookup_empty. reflexivity.
  - rewrite lookup_insert_ne by discriminate.
    rewrite lookup_insert_eq. reflexivity.
  - rewrite lookup_insert_eq. reflexivity.
  - intros k Hk. unfold discriminatingHeaders in Hk.
    repeat (apply elem_of_cons in Hk as [->|Hk]);
      [ .. | apply elem_of_nil in Hk; contradiction ].
    + rewrite lookup_insert_eq. split; [reflexivity | eauto].
    + repeat first [ rewrite lookup_insert_ne by discriminate
                   | rewrite lookup_singleton_ne by discriminate ].
      split; [intros [? ?]; discriminate | discriminate].
    + repeat first [ rewrite lookup_insert_ne by discriminate
                   | rewrite lookup_singleton_ne by discriminate ].
      split; [intros [? ?]; discriminate | discriminate].
    + repeat first [ rewrite lookup_insert_ne by discriminate
                   | rewrite lookup_singleton_ne by discriminate ].
      split; [intros [? ?]; discriminate | discriminate].
Qed.

End BuilderTheorems.

(** C5 fails on [newUploadPartReq]: the request it builds carries the
    payload hash and the two query parameters but no [User-Agent] header,
    where [newPutObjectReq] on the same payload sets it.  For every payload
    whose digest succeeds, the constructors for PUT, DELETE and the GET
    variants with [If-None-Match], [If-Modified-Since] and [Range] set
    [User-Agent] and the payload hash, each of the three GET constructors
    adds its own discriminating header and no other, and the upload-part
    constructor adds [partNumber] and [uploadId], sets the payload hash, and
    leaves [User-Agent] unset.  [NewGetObjectIfMatchReq] hands to the signer
    a request with the payload hash and [If-Match] as its one discriminating
    header, and likewise without [User-Agent]. *)
Theorem upload_part_constructor_sets_no_user_agent :
  builds
    (newUploadPartReq (env := Sample.env) Sample.config "bucket" "object"
       "upload-1" 1 Sample.payload)
    (initialWorld (env := Sample.env))
    (fun _ h q =>
       h !! "User-Agent" = None
       /\ h !! "X-Amz-Content-Sha256" = Some ["abcd"]
       /\ q !! "partNumber" = Some ["1"]
       /\ q !! "uploadId" = Some ["upload-1"])
  /\ builds
       (newPutObjectReq (env := Sample.env) Sample.config "bucket" "object"
          Sample.payload)
       (initialWorld (env := Sample.env))
       (fun _ h q =>
          h !! "User-Agent" = Some ["S3Verify (linux; amd64) s3verify/1.0"]
          /\ h !! "X-Amz-Content-Sha256" = Some ["abcd"])
  /\ (forall (env : Collaborators) (config : ServerConfig)
             (bucket object uploadID ETag : string)
             (partNumber startRange endRange lastModified : Z)
             (data md5Sum sha256Sum emptyMd5 emptySha256 : list byte)
             (len emptyLen : Z) (w : world),
        computeHash data = inr (md5Sum, sha256Sum, len) ->
        computeHash [] = inr (emptyMd5, emptySha256, emptyLen) ->
        builds (newPutObjectReq config bucket object data) w (fun _ h q =>
          h !! "User-Agent" = Some [appUserAgent]
          /\ h !! "X-Amz-Content-Sha256" = Some [hexEncodeToString sha256Sum])
        /\ builds (newRemoveObjectReq config bucket object) w (fun _ h q =>
             h !! "User-Agent" = Some [appUserAgent]
             /\ h !! "X-Amz-Content-Sha256"
                = Some [hexEncodeToString emptySha256])
        /\ builds (newGetObjectIfNoneMatchReq config bucket object ETag) w
             (fun _ h q =>
                h !! "User-Agent" = Some [appUserAgent]
                /\ h !! "X-Amz-Content-Sha256"
                   = Some [hexEncodeToString emptySha256]
                /\ h !! "If-None-Match" = Some [ETag]
                /\ onlyDiscriminator h (Some "If-None-Match")
                /\ q = ∅)
        /\ builds (newGetObjectIfModifiedSinceReq config bucket object
                     lastModified) w
             (fun _ h q =>
                h !! "User-Agent" = Some [appUserAgent]
                /\ h !! "X-Amz-Content-Sha256"
                   = Some [hexEncodeToString emptySha256]
                /\ h !! "If-Modified-Since" = Some [formatHTTPTime lastModified]
                /\ onlyDiscriminator h (Some "If-Modified-Since")
                /\ q = ∅)
        /\ builds (newGetObjectRangeReq config bucket object startRange
                     endRange) w
             (fun _ h q =>
                h !! "User-Agent" = Some [appUserAgent]
                /\ h !! "X-Amz-Content-Sha256"
                   = Some [hexEncodeToString emptySha256]
                /\ h !! "Range"
                   = Some ["bytes=" ++ Itoa startRange ++ "-" ++ Itoa endRange]
                /\ onlyDiscriminator h (Some "Range")
                /\ q = ∅)
        /\ builds (newUploadPartReq config bucket object uploadID partNumber
                     data) w
             (fun _ h q =>
                h !! "User-Agent" = None
                /\ h !! "X-Amz-Content-Sha256"
                   = Some [hexEncodeToString sha256Sum]
                /\ onlyDiscriminator h None
                /\ q !! "partNumber" = Some [Itoa partNumber]
                /\ q !! "uploadId" = Some [uploadID]))
  /\ (forall (env : Collaborators) (config : ServerConfig)
             (bucket object ETag targetURL : string),
        makeTargetURL (Endpoint config) bucket object (Region config)
        = inr targetURL ->
        exists w1 h,
          NewGetObjectIfMatchReq config bucket object ETag initialWorld
          = (q <~ SignV4 (mkHttpRequest "GET" (Some targetURL) 0)
                    (Access config) (Secret config) (Region config) ;;
             _ <~ writeGlobal q ;;
             q' <~ readGlobal ;;
             stRet (inr q')) w1
          /\ maps w1 !! 0%nat = Some h
          /\ h !! "User-Agent" = None
          /\ h !! "X-Amz-Content-Sha256"
             = Some [hexEncodeToString (Sum256 [])]
          /\ h !! "If-Match" = Some [ETag]
          /\ onlyDiscriminator h (Some "If-Match")).
Proof.
  split_and!.
  - destruct (constructors_headers (env := Sample.env) Sample.config "bucket"
                "object" "upload-1" Sample.etag 1 0 4 0 Sample.payload
                [x01; x02] [xab; xcd] [x01; x02] [xab; xcd] 5 0
                (initialWorld (env := Sample.env)) eq_refl eq_refl)
      as (_ & _ & _ & _ & _ & w' & req & Hrun & Hua & Hhash & _ & Hpn & Hid).
    exists w', req. split; [exact Hrun |]. split_and!; assumption.
  - destruct (constructors_headers (env := Sample.env) Sample.config "bucket"
                "object" "upload-1" Sample.etag 1 0 4 0 Sample.payload
                [x01; x02] [xab; xcd] [x01; x02] [xab; xcd] 5 0
                (initialWorld (env := Sample.env)) eq_refl eq_refl)
      as ((w' & req & Hrun & Hua & Hhash & _) & _).
    exists w', req. split; [exact Hrun |]. split; assumption.
  - intros env config bucket object uploadID ETag partNumber startRange
      endRange lastModified data md5Sum sha256Sum emptyMd5 emptySha256 len
      emptyLen w Hdata Hempty.
    destruct (constructors_headers config bucket object uploadID ETag
                partNumber startRange endRange lastModified data md5Sum
                sha256Sum emptyMd5 emptySha256 len emptyLen w Hdata Hempty)
      as (Hput & Hdel & Hnone & Hsince & Hrange & Hpart).
    split_and!; try assumption.
    + destruct Hput as (w' & req & Hrun & Hua & Hhash & _).
      exists w', req. auto.
    + destruct Hdel as (w' & req & Hrun & Hua & Hhash & _).
      exists w', req. auto.
  - intros env config bucket object ETag targetURL Hurl.
    destruct (NewGetObjectIfMatchReq_headers config bucket object ETag
                targetURL Hurl)
      as (w1 & h & Hrun & _ & Hh & Hua & Hhash & Hmatch & Honly).
    exists w1, h. split_and!; assumption.
Qed.

Section FreshnessTheorems.
Context {env : Collaborators}.

Lemma preserves_withMap (w : world) (v : Http.Values) :
  preserves w (withMap w v).
Proof.
  unfold preserves, withMap. simpl. split_and!; try reflexivity.
  intros l [x Hl]. apply lookup_insert_ne. intros Heq. subst l.
  rewrite nextMap_fresh in Hl. discriminate.
Qed.

Lemma preserves_withTwoMaps (w : world) (h q : Http.Values) :
  preserves w (withTwoMaps w h q).
Proof.
  unfold preserves, withTwoMaps. simpl. split_and!; try reflexivity.
  intros l [x Hl].
  assert (Hne1 : nextMap w ≠ l).
  { intros Heq. subst l. rewrite nextMap_fresh in Hl. discriminate. }
  assert (Hne2 : nextMap (withMap w ∅) ≠ l).
  { intros Heq. subst l. pose proof (nextMap_fresh (withMap w ∅)) as Hf.
    change (maps (withMap w ∅)) with (<[nextMap w := ∅]> (maps w)) in Hf.
    rewrite lookup_insert_ne in Hf by exact Hne1. congruence. }
  rewrite !lookup_insert_ne by assumption. reflexivity.
Qed.

Lemma freshIn_one_map (w : world) (bucket object : string)
    (body : option (list byte)) (len : Z) :
  freshIn w (mkRequest bucket object None (Some (nextMap w)) body len).
Proof.
  unfold freshIn. simpl. split_and!.
  - intros l [= <-]. apply nextMap_fresh.
  - intros l [=].
  - intros l _ [=].
Qed.

Lemma freshIn_two_maps (w : world) (bucket object : string)
    (body : option (list byte)) (len : Z) :
  freshIn w (mkRequest bucket object (Some (nextMap (withMap w ∅)))
               (Some (nextMap w)) body len).
Proof.
  unfold freshIn. simpl. split_and!.
  - intros l [= <-]. apply nextMap_fresh.
  - intros l [= <-].
    pose proof (nextMap_fresh (withMap w ∅)) as Hf.
    change (maps (withMap w ∅)) with (<[nextMap w := ∅]> (maps w)) in Hf.
    destruct (decide (nextMap w = nextMap (withMap w ∅))) as [Heq|Hne].
    + exfalso. exact (nextMap_distinct w Heq).
    + rewrite lookup_insert_ne in Hf by exact Hne. exact Hf.
  - intros l [= <-] [= Heq]. exact (nextMap_distinct w (eq_sym Heq)).
Qed.

Ltac fresh_builder :=
  unfold buildsFresh;
  match goal with
  | |- context [computeHash ?d] =>
      destruct (computeHash d) as [?|[[? ?] ?]]
  end;
  do 2 eexists; (split; [reflexivity |]);
  (split;
   [ first [ apply preserves_withMap | apply preserves_withTwoMaps ]
   | intros ? [= <-];
     first [ apply freshIn_one_map | apply freshIn_two_maps ] ]).

(** C9 (as amended): every invocation of a constructor over [Request]
    (PUT, DELETE, upload-part and the GET variants with [If-None-Match],
    [If-Modified-Since] and [Range]) runs without a panic, leaves every map,
    every request cell and the package-level request variable as they were,
    and returns a request whose header map and query map are new.
    [NewGetObjectIfMatchReq] instead returns the pointer it has stored in
    the package-level variable [GetObjectIfMatchReq], so that the next
    invocation fills in the request the previous one returned. *)
Theorem constructors_build_fresh_requests
    (config : ServerConfig) (bucket object uploadID ETag : string)
    (partNumber startRange endRange lastModified : Z) (data : list byte)
    (w : world) :
  buildsFresh (newPutObjectReq config bucket object data) w
  /\ buildsFresh (newRemoveObjectReq config bucket object) w
  /\ buildsFresh (newGetObjectIfNoneMatchReq config bucket object ETag) w
  /\ buildsFresh
       (newGetObjectIfModifiedSinceReq config bucket object lastModified) w
  /\ buildsFresh
       (newGetObjectRangeReq config bucket object startRange endRange) w
  /\ buildsFresh
       (newUploadPartReq config bucket object uploadID partNumber data) w
  /\ (forall w' p,
        NewGetObjectIfMatchReq config bucket object ETag w = Some (w', inr p) ->
        GetObjectIfMatchReq w' = p).
Proof.
  unfold buildsFresh.
  rewrite newPutObjectReq_run, newRemoveObjectReq_run,
    newGetObjectIfNoneMatchReq_run, newGetObjectIfModifiedSinceReq_run,
    newGetObjectRangeReq_run, newUploadPartReq_run.
  split_and!; try fresh_builder.
  intros w' p. unfold NewGetObjectIfMatchReq.
  destruct (makeTargetURL _ _ _ _) as [e|targetURL]; [intros [=] |].
  unfold stBind, stRet, readGlobal, loadRequest, valuesSetAt, updMap,
    storeRequest, writeGlobal.
  repeat (match goal with
          | |- context [match ?x with _ => _ end] => destruct x eqn:?
          end; simpl; try discriminate).
  intros [= <- <-]. reflexivity.
Qed.

End FreshnessTheorems.

(** C9 (as stated) fails for [NewGetObjectIfMatchReq]: the request the
    first invocation returns and the request the second invocation returns
    refer to one and the same header map, and the second invocation
    overwrites the [If-Match] entry the first request was built with. *)
Lemma if_match_requests_share_their_header :
  match NewGetObjectIfMatchReq (env := Sample.env) Sample.config "bucket"
          "object" Sample.etag (initialWorld (env := Sample.env)) with
  | Some (w1, inr req1) =>
      match NewGetObjectIfMatchReq (env := Sample.env) Sample.config "bucket"
              "object" "1234567890" w1 with
      | Some (w2, inr req2) =>
          req1 <> req2
          /\ (HeaderRef <$> requests w2 !! req1)
             = (HeaderRef <$> requests w2 !! req2)
          /\ headerOf w1 req1 !! "If-Match" = Some [Sample.etag]
          /\ headerOf w2 req1 !! "If-Match" = Some ["1234567890"]
      | _ => False
      end
  | _ => False
  end.
Proof.
  vm_compute. split; [discriminate |]. repeat split; reflexivity.
Qed.

(** ** The tasks *)

Section TaskFacts.
Context {env : Collaborators}.

Ltac run_task :=
  unfold eventsOf, run, startIn, putObjectTask, uploadPartTask,
    getObjectRangeTask, getObjectIfModifiedSinceTask,
    getObjectIfNoneMatchTask, removeObjectTask, sendErrReturn, partMessage,
    pBind, liftSt, exec, defer, emit, ret, orPanic, closeResponse;
  cbn [store trace deferred opened fst snd];
  rewrite ?newPutObjectReq_run, ?newUploadPartReq_run,
    ?newGetObjectRangeReq_run, ?newGetObjectIfModifiedSinceReq_run,
    ?newGetObjectIfNoneMatchReq_run, ?newRemoveObjectReq_run.

Ltac task_cases :=
  repeat (match goal with
          | |- context [match ?x with _ => _ end] =>
              lazymatch x with
              | context [match _ with _ => _ end] => fail
              | _ => destruct x eqn:?
              end
          end;
          try discriminate;
          cbn [store trace deferred opened fst snd];
          rewrite ?newPutObjectReq_run, ?newUploadPartReq_run,
            ?newGetObjectRangeReq_run, ?newGetObjectIfModifiedSinceReq_run,
            ?newGetObjectIfNoneMatchReq_run, ?newRemoveObjectReq_run).

(** The events of a put-object task, case by case. *)
Lemma putObjectTask_events (config : ServerConfig) (bucket : string)
    (cur : nat) (body : string) (w : world) :
  let object :=
    mkObjectInfo ("s3verify-put-parallel" ++ Itoa (Z.of_nat cur))
      (list_byte_of_string body) "" 0 0 "" in
  let t := eventsOf (putObjectTask config bucket cur body) w in
  (exists e, t = [SendErr (Some e)])
  \/ (exists e, t = [Acquire 0; SendErr (Some e); Release 0])
  \/ t = [Acquire 0; StoreObject cur object; SendErr None; Release 0].
Proof.
  intros object t. subst t object. run_task. task_cases; simpl; eauto.
Qed.

(** The events of an upload-part task, case by case: one message, tagged
    with the task's index and carrying part number 1, and no assignment to
    a registry. *)
Lemma uploadPartTask_events (config : ServerConfig) (bucket : string)
    (objectKey objectUploadID : string) (cur : nat) (objectData : list byte)
    (readErr : option error) (w : world) :
  let t := eventsOf (uploadPartTask config bucket objectKey objectUploadID
                       cur objectData readErr) w in
  exists m,
    index m = cur
    /\ Part.PartNumber (objPart m) = 1%Z
    /\ (t = [SendPart m] \/ t = [Acquire 0; SendPart m; Release 0]).
Proof.
  intros t. subst t. run_task. task_cases; simpl;
    match goal with |- context [SendPart ?m] => exists m end;
    simpl; auto.
Qed.

Lemma awaitParts_objects (count : nat) :
  forall (partCh : chan partChannel) (reg : registry),
    objects (snd (awaitParts count partCh reg)) = objects reg.
Proof.
  induction count as [|count IH]; intros partCh reg; simpl; [reflexivity |].
  destruct (receive partCh) as [m rest| |]; simpl; try reflexivity.
  destruct (err m); simpl; [reflexivity |].
  destruct (complMultipartUploads reg !! index m); simpl; [| reflexivity].
  rewrite IH. reflexivity.
Qed.

(** C1 (as amended): in the upload-part test the registries [objectParts]
    and [complMultipartUploads] are written by the receiving loop only:
    among assignments to the registry and sends on a channel, an upload-part
    task performs one send, of a message tagged with its own index, and
    nothing else; it is the loop that appends the part of a message it
    accepts to [objectParts] and to the upload at the index of the message,
    and the loop leaves [objects] as it is.  In the put-object
    test it is the task itself that writes the registry: a task whose upload
    is verified first assigns the object it uploaded to its own slot
    [objects[cur]] and then sends [nil], and does nothing else of the kind;
    a task that fails sends its error and assigns nothing.  The tasks of the
    GET and DELETE tests assign no registry slot. *)
Theorem registry_writers (config : ServerConfig) (bucket : string)
    (objectKey objectUploadID objectETag body : string) (cur : nat)
    (objectData objectBody objectSpare : list byte) (readErr : option error)
    (objectSize draw1 draw2 pastDate lastModified : Z) (w : world)
    (count : nat) (partCh : chan partChannel) (reg : registry) :
  ((exists m,
      writesAndSends (eventsOf (uploadPartTask config bucket objectKey
                                  objectUploadID cur objectData readErr) w)
      = [SendPart m]
      /\ index m = cur)
   /\ (forall m rest isClosed upload,
        err m = None ->
        complMultipartUploads reg !! index m = Some upload ->
        snd (awaitParts 1 (mkChan (m :: rest) isClosed) reg)
        = mkRegistry (objects reg) (objectParts reg ++ [objPart m])
            (<[index m := Complete.mkUpload
                            (Complete.Parts upload
                             ++ [toCompletePart (objPart m)])]>
               (complMultipartUploads reg)))
   /\ objects (snd (awaitParts count partCh reg)) = objects reg)
  /\ (let t := eventsOf (putObjectTask config bucket cur body) w in
      writesAndSends t
      = [StoreObject cur (putObjectOf cur body); SendErr None]
      \/ exists e, writesAndSends t = [SendErr (Some e)])
  /\ storedSlots (eventsOf (getObjectRangeTask config bucket objectKey
                              objectSize objectBody objectSpare draw1 draw2) w)
     = []
  /\ storedSlots (eventsOf (getObjectIfModifiedSinceTask config bucket pastDate
                              objectKey lastModified objectBody) w) = []
  /\ storedSlots (eventsOf (getObjectIfNoneMatchTask config bucket objectKey
                              objectETag objectBody) w) = []
  /\ storedSlots (eventsOf (removeObjectTask config bucket objectKey) w) = [].
Proof.
  split_and!.
  - destruct (uploadPartTask_events config bucket objectKey objectUploadID
                cur objectData readErr w) as (m & Hm & _ & [-> | ->]);
      exists m; split; reflexivity || exact Hm.
  - intros m rest isClosed upload Herr Hup. simpl.
    rewrite Herr, Hup. reflexivity.
  - apply awaitParts_objects.
  - cbv zeta.
    destruct (putObjectTask_events config bucket cur body w)
      as [[e ->] | [[e ->] | ->]]; simpl; eauto.
  - run_task. task_cases; reflexivity.
  - run_task. task_cases; reflexivity.
  - run_task. task_cases; reflexivity.
  - run_task. task_cases; reflexivity.
Qed.

End TaskFacts.

(** C1 (as stated) fails: a put-object task whose upload is verified
    assigns the slot [objects[3]] itself, before it sends on the channel. *)
Lemma put_object_task_writes_the_registry :
  eventsOf (putObjectTask (env := Sample.env) Sample.config "bucket" 3 "abc")
    (initialWorld (env := Sample.env))
  = [Acquire 0;
     StoreObject 3
       (mkObjectInfo "s3verify-put-parallel3" [x61; x62; x63] "" 0 0 "");
     SendErr None;
     Release 0].
Proof. vm_compute. reflexivity. Qed.

(** ** The sequential test of get-object-if-match.go *)

Section IfMatchFacts.
Context {env : Collaborators}.

Ltac run_main :=
  unfold eventsOf, run, startIn, mainGetObjectIfMatch, cleanUpReturn,
    pBind, liftSt, exec, emit, ret;
  cbn [store trace deferred opened fst snd].

Ltac main_cases :=
  repeat (match goal with
          | |- context [match ?x with _ => _ end] =>
              lazymatch x with
              | context [match _ with _ => _ end] => fail
              | _ => destruct x eqn:?
              end
          | |- context [let '(_, _) := ?x in _] => destruct x eqn:?
          end;
          try discriminate;
          cbn [store trace deferred opened fst snd]).

(** [mainGetObjectIfMatch] closes no response, whatever the server
    answers. *)
Lemma mainGetObjectIfMatch_never_releases (config : ServerConfig)
    (seed1 seed2 : Z) (randomBuf : list byte) (readErr : option error)
    (w : world) :
  Forall (fun e => forall h, e <> Release h)
    (eventsOf (mainGetObjectIfMatch config seed1 seed2 randomBuf readErr) w).
Proof.
  run_main. main_cases; simpl; repeat constructor; discriminate.
Qed.

(** [mainGetObjectIfMatch] returns [nil] only if the response to the
    request built with the invalid entity tag passed the verification for
    the request that must fail. *)
Lemma mainGetObjectIfMatch_passes_only_on_412 (config : ServerConfig)
    (seed1 seed2 : Z) (randomBuf : list byte) (readErr : option error)
    (w : world) :
  snd (run (mainGetObjectIfMatch config seed1 seed2 randomBuf readErr)
         (startIn w)) = Return None ->
  exists bucket object w0 w1 badReq badRes,
    NewGetObjectIfMatchReq config bucket object "1234567890" w0
    = Some (w1, inr badReq)
    /\ ExecRequest badReq w1 = inr badRes
    /\ GetObjectIfMatchVerify badRes [] "412 Precondition Failed" true = None.
Proof.
  run_main. main_cases; simpl; intros [=]; subst.
  do 6 eexists. split_and!; eassumption.
Qed.

(** C8: the response to the GET whose [If-Match] carries an entity tag
    that does not match (["1234567890"]) passes the verification exactly
    when the standard headers are accepted, the body decodes to an error
    document whose code is ["PreconditionFailed"] and the status is 412; a
    document with any other code yields the verification error that names
    the code received; and [mainGetObjectIfMatch] returns [nil] only if the
    response to that request passed this verification. *)
Theorem if_match_failure_is_precondition_failed (res : Http.Response)
    (config : ServerConfig) (seed1 seed2 : Z) (randomBuf : list byte)
    (readErr : option error) (w : world) :
  (GetObjectIfMatchVerify res [] "412 Precondition Failed" true = None
   <-> verifyStandardHeaders (Http.Header res) = None
       /\ (exists errBody,
             xmlDecode (Http.Body res) = inr errBody
             /\ Minio.Code errBody = "PreconditionFailed")
       /\ Http.Status res = "412 Precondition Failed")
  /\ (forall errBody,
        verifyStandardHeaders (Http.Header res) = None ->
        xmlDecode (Http.Body res) = inr errBody ->
        Minio.Code errBody <> "PreconditionFailed" ->
        GetObjectIfMatchVerify res [] "412 Precondition Failed" true
        = Some (Errorf
                  "Unexpected Error Response: wanted PreconditionFailed, got %v"
                  [VStr (Minio.Code errBody)]))
  /\ (snd (run (mainGetObjectIfMatch config seed1 seed2 randomBuf readErr)
             (startIn w)) = Return None ->
      exists bucket object w0 w1 badReq badRes,
        NewGetObjectIfMatchReq config bucket object "1234567890" w0
        = Some (w1, inr badReq)
        /\ ExecRequest badReq w1 = inr badRes
        /\ GetObjectIfMatchVerify badRes [] "412 Precondition Failed" true
           = None).
Proof.
  destruct (GetObjectIfMatchVerify_must_fail res) as [H1 H2].
  split_and!; [exact H1 | exact H2 |].
  apply mainGetObjectIfMatch_passes_only_on_412.
Qed.

End IfMatchFacts.

(** C4 fails on [mainGetObjectIfMatch]: against the sample server the test
    obtains two responses and returns [nil], and both responses are still
    open when it returns; no run of the test closes a response. *)
Theorem if_match_test_leaves_its_responses_open :
  let t := eventsOf
             (mainGetObjectIfMatch (env := Sample.env) Sample.config 1 2
                Sample.payload None)
             (initialWorld (env := Sample.env)) in
  t = [Acquire 0; Acquire 1; CleanUp "s3verify-get1" "s3verify-get2"]
  /\ leaked [] t = [0%nat; 1%nat]
  /\ snd (run (mainGetObjectIfMatch (env := Sample.env) Sample.config 1 2
                 Sample.payload None)
            (startIn (initialWorld (env := Sample.env))))
     = Return None
  /\ (forall (env : Collaborators) config seed1 seed2 randomBuf readErr w,
        Forall (fun e => forall h, e <> Release h)
          (eventsOf (mainGetObjectIfMatch config seed1 seed2 randomBuf readErr)
             w)).
Proof.
  cbv zeta. split_and!.
  - vm_compute. reflexivity.
  - vm_compute. reflexivity.
  - vm_compute. reflexivity.
  - intros. apply mainGetObjectIfMatch_never_releases.
Qed.

(** ** The range probe *)

Section RangeFacts.
Context {env : Collaborators}.

Lemma wrap64_small (z : Z) :
  (- 2 ^ 63 <= z < 2 ^ 63)%Z -> wrap64 z = z.
Proof.
  intros Hz. unfold wrap64. rewrite Z.mod_small by lia. lia.
Qed.

Lemma chooseRange_bounds (objectSize draw1 draw2 : Z) :
  (0 < objectSize < 2 ^ 63)%Z ->
  exists a b,
    chooseRange objectSize draw1 draw2 = Some (a, b)
    /\ (0 <= a <= b)%Z /\ (b < objectSize)%Z.
Proof.
  intros Hsize. unfold chooseRange, Int63n.
  destruct (Z.leb_spec objectSize 0) as [Hle|_]; [lia |].
  set (a := (draw1 mod objectSize)%Z).
  assert (Ha : (0 <= a < objectSize)%Z) by (apply Z.mod_pos_bound; lia).
  rewrite (wrap64_small (objectSize - a)) by lia.
  destruct (Z.leb_spec (objectSize - a) 0) as [Hle|_]; [lia |].
  set (r := (draw2 mod (objectSize - a))%Z).
  assert (Hr : (0 <= r < objectSize - a)%Z) by (apply Z.mod_pos_bound; lia).
  rewrite (wrap64_small (r + a)) by lia.
  exists a, (r + a)%Z. split; [reflexivity | lia].
Qed.

Lemma sliceBytes_within (body spare : list byte) (lo hi : Z) :
  (0 <= lo <= hi)%Z ->
  (hi <= Z.of_nat (List.length body + List.length spare))%Z ->
  sliceBytes body spare lo hi
  = Some (take (Z.to_nat (hi - lo)) (drop (Z.to_nat lo) (body ++ spare)%list)).
Proof.
  intros Hlo Hhi. unfold sliceBytes.
  destruct (Z.leb_spec 0 lo) as [_|?]; [| lia].
  destruct (Z.leb_spec lo hi) as [_|?]; [| lia].
  destruct (Z.leb_spec hi (Z.of_nat (List.length body + List.length spare)))
    as [_|?]; [| lia].
  simpl. replace (Z.to_nat hi - Z.to_nat lo)%nat with (Z.to_nat (hi - lo))
    by lia.
  reflexivity.
Qed.

Lemma sliceBytes_beyond (body spare : list byte) (lo hi : Z) :
  (Z.of_nat (List.length body + List.length spare) < hi)%Z ->
  sliceBytes body spare lo hi = None.
Proof.
  intros Hhi. unfold sliceBytes.
  destruct (Z.leb_spec hi (Z.of_nat (List.length body + List.length spare)))
    as [?|_]; [lia |].
  rewrite andb_false_r. reflexivity.
Qed.

Lemma sliceBytes_inclusive (body spare : list byte) (a b : Z) :
  (0 <= a <= b)%Z ->
  (b < Z.of_nat (List.length body))%Z ->
  (Z.of_nat (List.length body) < 2 ^ 63)%Z ->
  let bufRange :=
    take (Z.to_nat (b - a + 1)) (drop (Z.to_nat a) body) in
  sliceBytes body spare a (wrap64 (b + 1)) = Some bufRange
  /\ Z.of_nat (List.length bufRange) = (b - a + 1)%Z
  /\ forall i : nat,
       (Z.of_nat i <= b - a)%Z ->
       bufRange !! i = body !! (Z.to_nat a + i)%nat.
Proof.
  intros Hab Hb Hlen bufRange. subst bufRange.
  rewrite wrap64_small by lia.
  rewrite sliceBytes_within by (rewrite ?Nat2Z.inj_add; lia).
  replace (b + 1 - a)%Z with (b - a + 1)%Z by lia.
  rewrite drop_app_le by lia.
  rewrite take_app_le by (rewrite length_drop; lia).
  split; [reflexivity |]. split.
  - rewrite length_take, length_drop. lia.
  - intros i Hi. rewrite lookup_take_lt by lia. rewrite lookup_drop.
    reflexivity.
Qed.

Lemma getObjectVerify_None (res : Http.Response) (expectedBody : list byte)
    (expectedStatusCode : Z) :
  getObjectVerify res expectedBody expectedStatusCode = None
  <-> Http.StatusCode res = expectedStatusCode
      /\ verifyStandardHeaders (Http.Header res) = None
      /\ Http.fault (Http.Body res) = None
      /\ Http.pending (Http.Body res) = expectedBody.
Proof.
  unfold getObjectVerify.
  rewrite three_checks, firstFailure_three, verifyStatusCode_None,
    verifyExactBody_None.
  tauto.
Qed.

Ltac run_range_task :=
  unfold eventsOf, run, startIn, getObjectRangeTask, sendErrReturn,
    pBind, liftSt, exec, defer, emit, ret, orPanic, closeResponse;
  cbn [store trace deferred opened fst snd].

(** C7 (as amended): for a stored object whose recorded size is the length
    of its body [P] and is positive, the range probe chooses bounds [a] and
    [b] with
    [0 <= a <= b < len(P)], asks for [bytes=a-b], expects status 206 and
    verifies the response against the slice [P[a : b+1]], which has length
    [b - a + 1] and holds the bytes of [P] from position [a] to position [b],
    both included, whatever the capacity of [P]: the task sends [nil]
    exactly when the status is 206, the standard headers are accepted and
    the body read is that slice. *)
Theorem range_probe_verifies_the_inclusive_slice (config : ServerConfig)
    (bucket : string) (object : ObjectInfo) (spare : list byte)
    (draw1 draw2 : Z) (w : world) :
  Size object = Z.of_nat (List.length (Body object)) ->
  (0 < Size object < 2 ^ 63)%Z ->
  exists a b bufRange,
    chooseRange (Size object) draw1 draw2 = Some (a, b)
    /\ (0 <= a <= b)%Z
    /\ (b < Z.of_nat (List.length (Body object)))%Z
    /\ sliceBytes (Body object) spare a (wrap64 (b + 1)) = Some bufRange
    /\ Z.of_nat (List.length bufRange) = (b - a + 1)%Z
    /\ (forall i : nat,
          (Z.of_nat i <= b - a)%Z ->
          bufRange !! i = Body object !! (Z.to_nat a + i)%nat)
    /\ (forall w' req res,
          newGetObjectRangeReq config bucket (Key object) a b w
          = Some (w', inr req) ->
          execRequest config "GET" req w' = inr res ->
          deref w' (customHeader req) !! "Range"
          = Some ["bytes=" ++ Itoa a ++ "-" ++ Itoa b]
          /\ eventsOf (getObjectRangeTask config bucket (Key object)
                         (Size object) (Body object) spare draw1 draw2) w
             = [Acquire 0;
                SendErr (getObjectVerify res bufRange Http.StatusPartialContent);
                Release 0]
          /\ (getObjectVerify res bufRange Http.StatusPartialContent = None
              <-> Http.StatusCode res = 206%Z
                  /\ verifyStandardHeaders (Http.Header res) = None
                  /\ Http.fault (Http.Body res) = None
                  /\ Http.pending (Http.Body res) = bufRange)).
Proof.
  intros Hsize Hpos.
  destruct (chooseRange_bounds (Size object) draw1 draw2 Hpos)
    as (a & b & Hchoose & Hab & Hb).
  rewrite Hsize in Hb, Hpos.
  destruct (sliceBytes_inclusive (Body object) spare a b Hab Hb ltac:(lia))
    as (Hslice & Hlen & Hbytes).
  exists a, b, (take (Z.to_nat (b - a + 1)) (drop (Z.to_nat a) (Body object))).
  split; [exact Hchoose |]. split; [exact Hab |]. split; [exact Hb |].
  split; [exact Hslice |]. split; [exact Hlen |]. split; [exact Hbytes |].
  intros w' req res Hbuild Hexec.
  split_and!.
  - rewrite newGetObjectRangeReq_run in Hbuild.
    destruct (computeHash []) as [e|[[md5Sum sha256Sum] len]];
      [discriminate |].
    injection Hbuild as <- <-. cbn [customHeader].
    rewrite deref_withMap. unfold rangeHeader, Http.headerSet.
    destruct canonical_keys as (E1 & E2 & _ & E4 & _). rewrite E1, E2, E4.
    rewrite lookup_insert_ne by discriminate.
    rewrite lookup_insert_ne by discriminate.
    rewrite lookup_insert_eq. reflexivity.
  - run_range_task. rewrite Hchoose.
    cbv beta zeta iota. cbn [store trace deferred opened fst snd].
    rewrite Hbuild. cbn [store trace deferred opened fst snd].
    rewrite Hexec. cbn [store trace deferred opened fst snd].
    rewrite Hslice.
    destruct (getObjectVerify res _ Http.StatusPartialContent);
      reflexivity.
  - apply getObjectVerify_None.
Qed.

End RangeFacts.

Lemma range_probe_verifies_the_inclusive_slice_witness :
  exists a b bufRange,
    chooseRange 5 7 9 = Some (a, b)
    /\ (0 <= a <= b)%Z
    /\ (b < 5)%Z
    /\ sliceBytes Sample.payload [x00; x00; x00] a (wrap64 (b + 1))
       = Some bufRange
    /\ Z.of_nat (List.length bufRange) = (b - a + 1)%Z.
Proof.
  destruct (range_probe_verifies_the_inclusive_slice (env := Sample.env)
              Sample.config "bucket"
              (mkObjectInfo "s3verify-put-parallel0" Sample.payload
                 Sample.etag 5 0 "")
              [x00; x00; x00] 7 9 (initialWorld (env := Sample.env)))
    as (a & b & bufRange & H1 & H2 & H3 & H4 & H5 & _).
  - reflexivity.
  - simpl. lia.
  - exists a, b, bufRange. simpl in *. auto.
Defined.

(** C7 (as stated) fails: the object that a verified put-object task
    stores has the recorded size 0 whatever its body ([mainPutObject]
    assigns the key and the body only), and the range probe draws its bounds
    from the recorded size: on this object [rand.Int63n(0)] panics, so the
    probe chooses no bounds, builds no request and sends no result. *)
Lemma range_probe_chooses_no_bounds_for_a_put_object :
  let stored := putObjectOf 0 "abc" in
  let probe :=
    getObjectRangeTask (env := Sample.env) Sample.config "bucket"
      (Key stored) (Size stored) (Body stored) [] 7 9 in
  eventsOf (putObjectTask (env := Sample.env) Sample.config "bucket" 0 "abc")
    (initialWorld (env := Sample.env))
  = [Acquire 0; StoreObject 0 stored; SendErr None; Release 0]
  /\ Body stored = [x61; x62; x63]
  /\ Size stored = 0%Z
  /\ chooseRange (Size stored) 7 9 = None
  /\ snd (run probe (startIn (initialWorld (env := Sample.env)))) = Panic
  /\ eventsOf probe (initialWorld (env := Sample.env)) = [].
Proof. vm_compute. repeat split; reflexivity. Qed.

(** ** The upload-part test as a whole *)

Section UploadPartFacts.
Context {env : Collaborators}.

Lemma uploadPartTask_sendsOnePart (config : ServerConfig) (bucket : string)
    (objectKey objectUploadID : string) (cur : nat) (objectData : list byte)
    (readErr : option error) (w : world) :
  sendsOnePart cur
    (eventsOf (uploadPartTask config bucket objectKey objectUploadID cur
                 objectData readErr) w).
Proof.
  destruct (uploadPartTask_events config bucket objectKey objectUploadID cur
              objectData readErr w) as (m & Hi & Hp & [-> | ->]);
    exists m; auto.
Qed.

Lemma imap_sendsOnePart {A} (F : nat -> A -> list event) (l : list A) :
  forall k,
    (forall i x, sendsOnePart (k + i) (F i x)) ->
    index <$> List.concat (sentParts <$> imap F l) = seq k (List.length l)
    /\ Forall (fun m => Part.PartNumber (objPart m) = 1%Z)
         (List.concat (sentParts <$> imap F l)).
Proof.
  revert F. induction l as [|x l IH]; intros F k HF.
  - split; [reflexivity | constructor].
  - destruct (HF 0%nat x) as (m & Hm & Hi & Hp).
    destruct (IH (F ∘ S) (S k)) as [IHi IHp].
    { intros i y. specialize (HF (S i) y).
      replace (k + S i)%nat with (S k + i)%nat in HF by lia. exact HF. }
    rewrite imap_cons, fmap_cons, concat_cons, Hm.
    split.
    + rewrite fmap_app, IHi. simpl. f_equal. rewrite Hi. lia.
    + apply Forall_app. split; [| exact IHp].
      constructor; [exact Hp | constructor].
Qed.

Lemma filter_index_seq (l : list partChannel) :
  forall k n i,
    index <$> l = seq k n ->
    (k <= i < k + n)%nat ->
    exists m, filter (fun m => index m = i) l = [m].
Proof.
  induction l as [|m l IH]; intros k n i Hl Hi.
  - destruct n; [lia | discriminate].
  - destruct n as [|n]; [discriminate |].
    simpl in Hl. injection Hl as Hm Hl.
    rewrite filter_cons. destruct (decide (index m = i)) as [Heq|Hne].
    + exists m. f_equal.
      destruct (filter (fun m0 => index m0 = i) l) as [|m' l'] eqn:E;
        [reflexivity |].
      exfalso.
      assert (Hin : m' ∈ filter (fun m0 => index m0 = i) l)
        by (rewrite E; left).
      apply list_elem_of_filter in Hin as [Hidx Hin].
      assert (Hin' : index m' ∈ seq (S k) n).
      { rewrite <- Hl. apply list_elem_of_fmap. eauto. }
      apply elem_of_seq in Hin'. lia.
    + apply (IH (S k) n i Hl). lia.
Qed.

End UploadPartFacts.

Lemma if_match_failure_is_precondition_failed_witness :
  exists bucket object w0 w1 badReq badRes,
    NewGetObjectIfMatchReq (env := Sample.env) Sample.config bucket object
      "1234567890" w0
    = Some (w1, inr badReq)
    /\ ExecRequest (Collaborators := Sample.env) badReq w1 = inr badRes
    /\ GetObjectIfMatchVerify (env := Sample.env) badRes []
         "412 Precondition Failed" true = None.
Proof.
  apply (proj2 (proj2
           (if_match_failure_is_precondition_failed (env := Sample.env)
              Sample.preconditionFailedResponse Sample.config 1 2
              Sample.payload None (initialWorld (env := Sample.env))))).
  vm_compute. reflexivity.
Defined.

Lemma constructors_build_fresh_requests_witness :
  match NewGetObjectIfMatchReq (env := Sample.env) Sample.config "bucket"
          "object" Sample.etag (initialWorld (env := Sample.env)) with
  | Some (w', inr p) => GetObjectIfMatchReq w' = p /\ p = 1%nat
  | _ => False
  end.
Proof.
  destruct (constructors_build_fresh_requests (env := Sample.env)
              Sample.config "bucket" "object" "upload-1" Sample.etag
              1 0 4 0 Sample.payload (initialWorld (env := Sample.env)))
    as (_ & _ & _ & _ & _ & _ & H).
  destruct (NewGetObjectIfMatchReq (env := Sample.env) Sample.config "bucket"
              "object" Sample.etag (initialWorld (env := Sample.env)))
    as [[w' [e|p]]|] eqn:E.
  - vm_compute in E. discriminate.
  - split; [exact (H w' p eq_refl) |].
    vm_compute in E. injection E as _ <-. reflexivity.
  - vm_compute in E. discriminate.
Defined.

(** ** Further properties of the tasks and builders *)

Section MoreTaskFacts.
Context {env : Collaborators}.

Ltac run_any_task :=
  unfold eventsOf, run, startIn, putObjectTask, uploadPartTask,
    getObjectRangeTask, getObjectIfModifiedSinceTask,
    getObjectIfNoneMatchTask, removeObjectTask, sendErrReturn, partMessage,
    pBind, liftSt, exec, defer, emit, ret, orPanic, closeResponse;
  cbn [store trace deferred opened fst snd];
  repeat (match goal with
          | |- context [match ?x with _ => _ end] =>
              lazymatch x with
              | context [match _ with _ => _ end] => fail
              | _ => destruct x eqn:?
              end
          end;
          cbn [store trace deferred opened fst snd]).

(** Every goroutine of the put-object, upload-part, range, if-none-match,
    if-modified-since and remove-object tests closes, by the time it ends,
    every response it obtained from the executor: on the paths that send an
    error, on the path that sends [nil], and when the task panics. *)
Theorem goroutines_release_their_responses (config : ServerConfig)
    (bucket : string) (objectKey objectUploadID objectETag body : string)
    (cur : nat) (objectData objectBody objectSpare : list byte)
    (readErr : option error)
    (objectSize draw1 draw2 pastDate lastModified : Z) (w : world) :
  leaked [] (eventsOf (putObjectTask config bucket cur body) w) = []
  /\ leaked [] (eventsOf (uploadPartTask config bucket objectKey
                            objectUploadID cur objectData readErr) w) = []
  /\ leaked [] (eventsOf (getObjectRangeTask config bucket objectKey
                            objectSize objectBody objectSpare draw1 draw2) w)
     = []
  /\ leaked [] (eventsOf (getObjectIfModifiedSinceTask config bucket pastDate
                            objectKey lastModified objectBody) w) = []
  /\ leaked [] (eventsOf (getObjectIfNoneMatchTask config bucket objectKey
                            objectETag objectBody) w) = []
  /\ leaked [] (eventsOf (removeObjectTask config bucket objectKey) w) = [].
Proof.
  split_and!; run_any_task; reflexivity.
Qed.

(** A constructor over [Request] returns an error exactly when the digest
    of the payload fails, and then it is the error of the digest. *)
Theorem constructors_fail_only_on_digest (config : ServerConfig)
    (bucket object uploadID : string) (partNumber : Z) (data : list byte)
    (w : world) (e : error) :
  ((exists w', newPutObjectReq config bucket object data w = Some (w', inl e))
   <-> computeHash data = inl e)
  /\ ((exists w', newUploadPartReq config bucket object uploadID partNumber
                    data w = Some (w', inl e))
      <-> computeHash data = inl e)
  /\ ((exists w', newRemoveObjectReq config bucket object w = Some (w', inl e))
      <-> computeHash [] = inl e).
Proof.
  rewrite newPutObjectReq_run, newUploadPartReq_run, newRemoveObjectReq_run.
  split_and!.
  - destruct (computeHash data) as [e'|[[? ?] ?]]; split;
      [ intros [w' H]; congruence
      | intros H; injection H as ->; eexists; reflexivity
      | intros [w' H]; congruence
      | intros H; discriminate ].
  - destruct (computeHash data) as [e'|[[? ?] ?]]; split;
      [ intros [w' H]; congruence
      | intros H; injection H as ->; eexists; reflexivity
      | intros [w' H]; congruence
      | intros H; discriminate ].
  - destruct (computeHash []) as [e'|[[? ?] ?]]; split;
      [ intros [w' H]; congruence
      | intros H; injection H as ->; eexists; reflexivity
      | intros [w' H]; congruence
      | intros H; discriminate ].
Qed.

End MoreTaskFacts.

(** ** How the receiving loops end *)

Lemma awaitErrors_Drained_iff (count : nat) :
  forall (q : list (option error)) (c : bool),
    fst (awaitErrors count (mkChan q c)) = Drained
    <-> (count <= List.length q)%nat
        /\ Forall (fun r => r = None) (take count q).
Proof.
  induction count as [|count IH]; intros q c; simpl.
  - split; [intros _; split; [lia | constructor] | reflexivity].
  - destruct q as [|[e|] q]; simpl.
    + destruct c; simpl; (split; [discriminate | intros [H _]; simpl in H; lia]).
    + split; [discriminate |].
      intros [_ H]. inversion H; discriminate.
    + rewrite IH. split; intros [H1 H2]; (split; [lia |]).
      * constructor; [reflexivity | exact H2].
      * inversion H2; assumption.
Qed.

Lemma awaitErrors_starved_iff (count : nat) :
  forall (q : list (option error)) (c : bool),
    (fst (awaitErrors count (mkChan q c)) = Hung
     <-> (List.length q < count)%nat
         /\ Forall (fun r => r = None) q /\ c = false)
    /\ (fst (awaitErrors count (mkChan q c)) = Aborted None
        <-> (List.length q < count)%nat
            /\ Forall (fun r => r = None) q /\ c = true).
Proof.
  induction count as [|count IH]; intros q c; simpl.
  - split; (split; [discriminate | intros [H _]; lia]).
  - destruct q as [|[e|] q]; simpl.
    + destruct c; simpl; split;
        (split; [ first [ discriminate
                        | intros _; split; [lia | split; [constructor | reflexivity]] ]
                | first [ reflexivity | intros (_ & _ & ?); discriminate ] ]).
    + split; (split; [discriminate |]);
        intros (_ & H & _); inversion H; discriminate.
    + destruct (IH q c) as [IH1 IH2]. rewrite IH1, IH2.
      split; (split; intros (H1 & H2 & H3);
              (split; [lia | split; [| exact H3]]));
        first [ constructor; [reflexivity | exact H2]
              | inversion H2; assumption ].
Qed.

Lemma awaitErrors_error_iff (count : nat) (e : error) :
  forall (q : list (option error)) (c : bool),
    fst (awaitErrors count (mkChan q c)) = Aborted (Some e)
    <-> exists k,
          (k < count)%nat /\ q !! k = Some (Some e)
          /\ Forall (fun r => r = None) (take k q).
Proof.
  induction count as [|count IH]; intros q c; simpl.
  - split; [discriminate | intros (k & H & _); lia].
  - destruct q as [|[e'|] q]; simpl.
    + destruct c; simpl; (split; [discriminate |]);
        intros (k & _ & H & _); rewrite lookup_nil in H; discriminate.
    + split.
      * intros [= ->]. exists 0%nat. split; [lia |].
        split; [reflexivity | constructor].
      * intros (k & _ & Hk & Hpre). destruct k as [|k].
        -- simpl in Hk. congruence.
        -- simpl in Hpre. inversion Hpre; discriminate.
    + rewrite IH. split.
      * intros (k & Hlt & Hk & Hpre). exists (S k).
        split; [lia |]. split; [exact Hk |].
        simpl. constructor; [reflexivity | exact Hpre].
      * intros (k & Hlt & Hk & Hpre). destruct k as [|k].
        -- simpl in Hk. discriminate.
        -- exists k. split; [lia |]. split; [exact Hk |].
           simpl in Hpre. inversion Hpre; assumption.
Qed.

Lemma awaitErrors_suffix (count : nat) :
  forall (ch : chan (option error)),
    exists taken,
      queue ch = (taken ++ queue (snd (awaitErrors count ch)))%list
      /\ (List.length taken <= count)%nat
      /\ closed (snd (awaitErrors count ch)) = closed ch.
Proof.
  induction count as [|count IH]; intros [q c]; simpl.
  - exists []. split; [reflexivity | split; [simpl; lia | reflexivity]].
  - destruct q as [|[e|] q]; simpl.
    + exists []. destruct c; simpl; (split; [reflexivity |]);
        (split; [simpl; lia | reflexivity]).
    + exists [Some e]. split; [reflexivity | split; [simpl; lia | reflexivity]].
    + destruct (IH (mkChan q c)) as (taken & Hq & Hlen & Hc).
      exists (None :: taken). simpl in *.
      split; [f_equal; exact Hq | split; [lia | exact Hc]].
Qed.

(** The loop [for count > 0 { count--; err, ok := <-errCh; ... }] on a
    channel that delivers the results [q]: it counts down to zero exactly
    when the first [count] results exist and are all [nil]; it returns
    [false] with the error [e] printed exactly when [e] is the first error
    among the first [count] results; when the channel runs out of results
    before that, the loop waits for ever if the channel is open and returns
    [false] without a message if it is closed.  In every case the loop takes
    at most [count] results, from the front, and leaves the others in
    order. *)
Theorem receiving_loop_outcomes (count : nat) (q : list (option error))
    (c : bool) (e : error) :
  (fst (awaitErrors count (mkChan q c)) = Drained
   <-> (count <= List.length q)%nat
       /\ Forall (fun r => r = None) (take count q))
  /\ (fst (awaitErrors count (mkChan q c)) = Aborted (Some e)
      <-> exists k,
            (k < count)%nat /\ q !! k = Some (Some e)
            /\ Forall (fun r => r = None) (take k q))
  /\ (fst (awaitErrors count (mkChan q c)) = Hung
      <-> (List.length q < count)%nat
          /\ Forall (fun r => r = None) q /\ c = false)
  /\ (fst (awaitErrors count (mkChan q c)) = Aborted None
      <-> (List.length q < count)%nat
          /\ Forall (fun r => r = None) q /\ c = true)
  /\ fst (awaitErrors count (mkChan q c)) <> Crashed
  /\ exists taken,
       q = (taken ++ queue (snd (awaitErrors count (mkChan q c))))%list
       /\ (List.length taken <= count)%nat
       /\ closed (snd (awaitErrors count (mkChan q c))) = c.
Proof.
  split; [apply awaitErrors_Drained_iff |].
  split; [apply awaitErrors_error_iff |].
  split; [apply (awaitErrors_starved_iff count q c) |].
  split; [apply (awaitErrors_starved_iff count q c) |].
  split; [| apply (awaitErrors_suffix count (mkChan q c))].
  revert q. induction count as [|count IH]; intros q; simpl; [discriminate |].
  destruct q as [|[e'|] q]; simpl; [destruct c; discriminate | discriminate |].
  apply IH.
Qed.

Lemma awaitRemovals_drain (buckets nObjects nCopyObjects nMultipartObjects : nat)
    (c : bool) :
  forall (pre post : list (option error)),
    Forall (fun r => r = None) pre ->
    List.length pre
    = (buckets * (nObjects + nCopyObjects + nMultipartObjects))%nat ->
    awaitRemovals buckets nObjects nCopyObjects nMultipartObjects
      (mkChan (pre ++ post)%list c)
    = (Drained, mkChan post c).
Proof.
  induction buckets as [|buckets IH]; intros pre post Hpre Hlen.
  - destruct pre; [reflexivity | simpl in Hlen; lia].
  - simpl in Hlen. simpl.
    rewrite <- (take_drop nObjects pre) in Hpre |- *.
    apply Forall_app in Hpre as [H1 Hpre].
    set (p1 := take nObjects pre) in *.
    assert (Hl1 : List.length p1 = nObjects)
      by (unfold p1; rewrite length_take; lia).
    set (r1 := drop nObjects pre) in *.
    assert (Hr1 : List.length r1
                  = (nCopyObjects + nMultipartObjects
                     + buckets * (nObjects + nCopyObjects + nMultipartObjects))%nat)
      by (unfold r1; rewrite length_drop; lia).
    rewrite <- app_assoc. rewrite <- Hl1 at 1.
    rewrite (awaitErrors_drain p1 _ c H1).
    rewrite <- (take_drop nCopyObjects r1) in Hpre |- *.
    apply Forall_app in Hpre as [H2 Hpre].
    set (p2 := take nCopyObjects r1) in *.
    assert (Hl2 : List.length p2 = nCopyObjects)
      by (unfold p2; rewrite length_take; lia).
    set (r2 := drop nCopyObjects r1) in *.
    assert (Hr2 : List.length r2
                  = (nMultipartObjects
                     + buckets * (nObjects + nCopyObjects + nMultipartObjects))%nat)
      by (unfold r2; rewrite length_drop; lia).
    rewrite <- app_assoc. rewrite <- Hl2 at 1.
    rewrite (awaitErrors_drain p2 _ c H2).
    rewrite <- (take_drop nMultipartObjects r2) in Hpre |- *.
    apply Forall_app in Hpre as [H3 Hpre].
    set (p3 := take nMultipartObjects r2) in *.
    assert (Hl3 : List.length p3 = nMultipartObjects)
      by (unfold p3; rewrite length_take; lia).
    rewrite <- app_assoc. rewrite <- Hl3 at 1.
    rewrite (awaitErrors_drain p3 _ c H3).
    apply IH; [exact Hpre |].
    rewrite length_drop. lia.
Qed.

Lemma awaitErrors_abort_or_drain (count : nat) (pre post : list (option error))
    (e : error) (c : bool) :
  Forall (fun r => r = None) pre ->
  awaitErrors count (mkChan (pre ++ Some e :: post)%list c)
  = if decide (List.length pre < count)%nat
    then (Aborted (Some e), mkChan post c)
    else (Drained, mkChan (drop count pre ++ Some e :: post)%list c).
Proof.
  intros Hpre. destruct (decide (List.length pre < count)%nat) as [Hlt|Hge].
  - apply awaitErrors_abort; assumption.
  - rewrite <- (take_drop count pre) at 1. rewrite <- app_assoc.
    assert (Hl : List.length (take count pre) = count)
      by (rewrite length_take; lia).
    rewrite <- Hl at 1. apply awaitErrors_drain.
    rewrite <- (take_drop count pre) in Hpre.
    apply Forall_app in Hpre as [H _]. exact H.
Qed.

Lemma awaitRemovals_abort (buckets nObjects nCopyObjects nMultipartObjects : nat)
    (e : error) (c : bool) (post : list (option error)) :
  forall (pre : list (option error)),
    Forall (fun r => r = None) pre ->
    (List.length pre
     < buckets * (nObjects + nCopyObjects + nMultipartObjects))%nat ->
    awaitRemovals buckets nObjects nCopyObjects nMultipartObjects
      (mkChan (pre ++ Some e :: post)%list c)
    = (Aborted (Some e), mkChan post c).
Proof.
  induction buckets as [|buckets IH]; intros pre Hpre Hlen;
    [simpl in Hlen; lia |].
  simpl in Hlen. simpl.
  rewrite (awaitErrors_abort_or_drain nObjects pre post e c Hpre).
  destruct (decide (List.length pre < nObjects)%nat) as [|H1]; [reflexivity |].
  assert (Hp1 : Forall (fun r => r = None) (drop nObjects pre))
    by (apply Forall_drop; exact Hpre).
  rewrite (awaitErrors_abort_or_drain nCopyObjects _ post e c Hp1).
  rewrite length_drop.
  destruct (decide (List.length pre - nObjects < nCopyObjects)%nat) as [|H2];
    [reflexivity |].
  assert (Hp2 : Forall (fun r => r = None) (drop nCopyObjects (drop nObjects pre)))
    by (apply Forall_drop; exact Hp1).
  rewrite (awaitErrors_abort_or_drain nMultipartObjects _ post e c Hp2).
  rewrite !length_drop.
  destruct (decide (List.length pre - nObjects - nCopyObjects
                    < nMultipartObjects)%nat) as [|H3]; [reflexivity |].
  apply IH.
  - apply Forall_drop. exact Hp2.
  - rewrite !length_drop. lia.
Qed.

(** The receiving side of [mainRemoveObjectExists], with its three loops
    per bucket on one channel, behaves as one loop over
    [buckets * (len(objects) + len(copyObjects) + len(multipartObjects))]
    results: when the results before that bound are all [nil] it takes
    exactly that many, and when the first error comes before that bound it
    returns [false] with that error, having taken the results up to and
    including it. *)
Theorem remove_loops_compose
    (buckets nObjects nCopyObjects nMultipartObjects : nat)
    (pre post : list (option error)) (e : error) (c : bool) :
  Forall (fun r => r = None) pre ->
  (List.length pre
   = buckets * (nObjects + nCopyObjects + nMultipartObjects) ->
   awaitRemovals buckets nObjects nCopyObjects nMultipartObjects
     (mkChan (pre ++ post)%list c)
   = (Drained, mkChan post c))%nat
  /\ ((List.length pre
       < buckets * (nObjects + nCopyObjects + nMultipartObjects))%nat ->
      awaitRemovals buckets nObjects nCopyObjects nMultipartObjects
        (mkChan (pre ++ Some e :: post)%list c)
      = (Aborted (Some e), mkChan post c)).
Proof.
  intros Hpre. split.
  - intros Hlen. apply awaitRemovals_drain; assumption.
  - intros Hlen. apply awaitRemovals_abort; assumption.
Qed.

Lemma remove_loops_compose_witness :
  let e := Opaque "connection reset" in
  awaitRemovals 2 2 0 1 (mkChan (replicate 6 None ++ [None]) false)
  = (Drained, mkChan [None] false)
  /\ awaitRemovals 2 2 0 1
       (mkChan (replicate 4 None ++ Some e :: [None]) false)
     = (Aborted (Some e), mkChan [None] false).
Proof.
  cbv zeta.
  split.
  - apply (proj1 (remove_loops_compose 2 2 0 1 (replicate 6 None) [None]
                    (Opaque "connection reset") false
                    ltac:(repeat constructor))).
    reflexivity.
  - apply (proj2 (remove_loops_compose 2 2 0 1 (replicate 4 None) [None]
                    (Opaque "connection reset") false
                    ltac:(repeat constructor))).
    simpl. lia.
Defined.

(** ** What the upload-part loop leaves in [objectParts] *)

Lemma awaitParts_objectParts (count : nat) :
  forall (q : list partChannel) (c : bool) (reg : registry),
    Forall (fun m => (index m < List.length (complMultipartUploads reg))%nat) q ->
    objectParts (snd (awaitParts count (mkChan q c) reg))
    = (objectParts reg ++ (objPart <$> acceptedParts count q))%list.
Proof.
  induction count as [|count IH]; intros q c reg Hq; simpl.
  - destruct q; simpl; rewrite app_nil_r; reflexivity.
  - destruct q as [|m q]; simpl.
    { destruct c; simpl; rewrite app_nil_r; reflexivity. }
    inversion Hq as [|? ? Hm Hrest]; subst.
    destruct (err m) as [e|] eqn:Herr; simpl.
    { rewrite app_nil_r. reflexivity. }
    destruct (lookup_lt_is_Some_2 _ _ Hm) as [upload Hup]. rewrite Hup.
    rewrite IH.
    + simpl. rewrite <- app_assoc. reflexivity.
    + simpl. rewrite length_insert. exact Hrest.
Qed.

Lemma awaitParts_crash (q : list partChannel) (c : bool) :
  forall (reg : registry),
    Forall (fun m => err m = None) q ->
    Exists (fun m => (List.length (complMultipartUploads reg) <= index m)%nat) q ->
    fst (fst (awaitParts (List.length q) (mkChan q c) reg)) = Crashed.
Proof.
  induction q as [|m q IH]; intros reg Hok Hex; [inversion Hex |].
  inversion Hok as [|? ? Hm Hrest]; subst.
  simpl. rewrite Hm.
  destruct (complMultipartUploads reg !! index m) as [upload|] eqn:Hup;
    [| reflexivity].
  apply IH; [exact Hrest |].
  simpl. rewrite length_insert.
  apply Exists_cons in Hex as [Hbad|Hex]; [| exact Hex].
  apply lookup_lt_Some in Hup. lia.
Qed.

(** The loop of [mainUploadPart] appends the part of every result it
    accepts to [objectParts] in the order in which the results are received
    (the parts before the first error); [objects] and the number of uploads
    do not change. *)
Theorem object_parts_keep_arrival_order (count : nat) (q : list partChannel)
    (c : bool) (reg : registry) :
  Forall (fun m => (index m < List.length (complMultipartUploads reg))%nat) q ->
  let reg' := snd (awaitParts count (mkChan q c) reg) in
  objectParts reg'
  = (objectParts reg ++ (objPart <$> acceptedParts count q))%list
  /\ objects reg' = objects reg
  /\ List.length (complMultipartUploads reg')
     = List.length (complMultipartUploads reg).
Proof.
  intros Hq reg'. subst reg'. split; [apply awaitParts_objectParts; exact Hq |].
  split; [apply awaitParts_objects |].
  apply (awaitParts_slots count q c reg Hq).
Qed.

Lemma object_parts_keep_arrival_order_witness :
  let late := mkPartChannel 1 (Part.mk 1 "etag-of-second" 4194304) None in
  let early := mkPartChannel 0 (Part.mk 1 "etag-of-first" 4200000) None in
  objectParts (snd (awaitParts 2 (mkChan [late; early] false) initialRegistry))
  = [Part.mk 1 "etag-of-second" 4194304; Part.mk 1 "etag-of-first" 4200000].
Proof.
  cbv zeta.
  apply (proj1 (object_parts_keep_arrival_order 2
                  [mkPartChannel 1 (Part.mk 1 "etag-of-second" 4194304) None;
                   mkPartChannel 0 (Part.mk 1 "etag-of-first" 4200000) None]
                  false initialRegistry
                  ltac:(repeat constructor; simpl; lia))).
Defined.

Section UploadPartBounds.
Context {env : Collaborators}.

(** When there are more multipart objects than uploads in
    [complMultipartUploads] and every upload-part task reports success, the
    loop of [mainUploadPart] panics on an index out of range, whatever the
    order in which the results arrive. *)
Theorem too_many_multipart_objects_panic (config : ServerConfig)
    (bucket : string) (multipartObjects : list ObjectInfo)
    (inputs : nat -> partInput) (arrival : list partChannel) (reg : registry) :
  (List.length (complMultipartUploads reg)
   < List.length multipartObjects)%nat ->
  arrival
  ≡ₚ List.concat (sentParts
               <$> uploadPartDispatch config bucket multipartObjects inputs) ->
  Forall (fun m => err m = None) arrival ->
  fst (fst (awaitParts (List.length multipartObjects) (mkChan arrival false)
              reg))
  = Crashed.
Proof.
  intros Hlen Hperm Hok.
  set (F := fun i object =>
              eventsOf (uploadPartTask config bucket (Key object)
                          (UploadID object) i (inputData (inputs i))
                          (inputReadErr (inputs i)))
                (inputStore (inputs i))).
  assert (HF : forall i x, sendsOnePart (0 + i) (F i x)).
  { intros i x. apply uploadPartTask_sendsOnePart. }
  destruct (imap_sendsOnePart F multipartObjects 0%nat HF) as [Hidx0 _].
  set (msgs := List.concat (sentParts
                 <$> uploadPartDispatch config bucket multipartObjects inputs))
    in *.
  assert (Hidx : index <$> msgs = seq 0 (List.length multipartObjects))
    by exact Hidx0.
  assert (HlenArr : List.length arrival = List.length multipartObjects).
  { rewrite (Permutation_length Hperm).
    rewrite <- (length_fmap index msgs), Hidx. apply length_seq. }
  rewrite <- HlenArr. apply awaitParts_crash; [exact Hok |].
  apply Exists_exists.
  assert (Hin : List.length (complMultipartUploads reg) ∈ index <$> msgs).
  { rewrite Hidx. apply elem_of_seq. lia. }
  apply list_elem_of_fmap in Hin as (m & Hm & Hin).
  exists m. split; [rewrite Hperm; exact Hin | lia].
Qed.

End UploadPartBounds.

Lemma too_many_multipart_objects_panic_witness :
  let part := Part.mk 1 Sample.etag 5 in
  fst (fst (awaitParts 3
              (mkChan [mkPartChannel 2 part None; mkPartChannel 0 part None;
                       mkPartChannel 1 part None] false)
              initialRegistry))
  = Crashed.
Proof.
  cbv zeta.
  apply (too_many_multipart_objects_panic (env := Sample.env)
           Sample.config "bucket"
           [mkObjectInfo "s3verify-multipart-0" [] "" 0 0 "upload-0";
            mkObjectInfo "s3verify-multipart-1" [] "" 0 0 "upload-1";
            mkObjectInfo "s3verify-multipart-2" [] "" 0 0 "upload-2"]
           (fun _ => mkPartInput Sample.payload None
                       (initialWorld (env := Sample.env)))).
  - simpl. lia.
  - vm_compute.
    apply (Permutation_cons_app [_; _] [] _). reflexivity.
  - repeat constructor.
Defined.

(** ** When a task reports success *)

Section TaskOutcomes.
Context {env : Collaborators}.

Lemma headerCheck_None (header : Http.Values) :
  (verifyStandardHeaders header >>? None) = None
  <-> verifyStandardHeaders header = None.
Proof. destruct (verifyStandardHeaders header); simpl; split; congruence. Qed.

Lemma putObjectVerify_None (res : Http.Response) (code : Z) :
  putObjectVerify res code = None
  <-> Http.StatusCode res = code
      /\ verifyStandardHeaders (Http.Header res) = None
      /\ Http.fault (Http.Body res) = None
      /\ Http.pending (Http.Body res) = [].
Proof.
  unfold putObjectVerify, verifyHeaderPutObject, verifyStatusPutObject,
    verifyBodyPutObject.
  rewrite three_checks, firstFailure_three, headerCheck_None,
    verifyStatusCode_None, verifyEmptyBody_None.
  tauto.
Qed.

Lemma uploadPartVerify_None (res : Http.Response) (code : Z) :
  uploadPartVerify res code = None
  <-> Http.StatusCode res = code
      /\ verifyStandardHeaders (Http.Header res) = None
      /\ Http.fault (Http.Body res) = None
      /\ Http.pending (Http.Body res) = [].
Proof.
  unfold uploadPartVerify, verifyHeaderUploadPart, verifyStatusUploadPart,
    verifyBodyUploadPart.
  rewrite three_checks, firstFailure_three, headerCheck_None,
    verifyStatusCode_None, verifyEmptyBody_None.
  tauto.
Qed.

Lemma removeObjectVerify_None (res : Http.Response) (code : Z) :
  removeObjectVerify res code = None
  <-> Http.StatusCode res = code
      /\ verifyStandardHeaders (Http.Header res) = None
      /\ Http.fault (Http.Body res) = None
      /\ Http.pending (Http.Body res) = [].
Proof.
  unfold removeObjectVerify, verifyHeaderRemoveObject,
    verifyStatusRemoveObject, verifyBodyRemoveObject.
  rewrite three_checks, firstFailure_three, headerCheck_None,
    verifyStatusCode_None, verifyEmptyBody_None.
  tauto.
Qed.

Lemma getObjectIfNoneMatchVerify_None (res : Http.Response)
    (body : list byte) (code : Z) :
  getObjectIfNoneMatchVerify res body code = None
  <-> Http.StatusCode res = code
      /\ verifyStandardHeaders (Http.Header res) = None
      /\ Http.fault (Http.Body res) = None
      /\ Http.pending (Http.Body res) = body.
Proof.
  unfold getObjectIfNoneMatchVerify, verifyHeaderGetObjectIfNoneMatch,
    verifyStatusGetObjectIfNoneMatch, verifyBodyGetObjectIfNoneMatch.
  rewrite three_checks, firstFailure_three, headerCheck_None,
    verifyStatusCode_None, verifyExactBody_None.
  tauto.
Qed.

Lemma verifyGetObjectIfModifiedSince_None (res : Http.Response)
    (body : list byte) (code : Z) :
  verifyGetObjectIfModifiedSince res body code = None
  <-> Http.StatusCode res = code
      /\ verifyStandardHeaders (Http.Header res) = None
      /\ Http.fault (Http.Body res) = None
      /\ Http.pending (Http.Body res) = body.
Proof.
  unfold verifyGetObjectIfModifiedSince, verifyHeaderGetObjectIfModifiedSince,
    verifyStatusGetObjectIfModifiedSince, verifyBodyGetObjectIfModifiedSince.
  rewrite three_checks, firstFailure_three, headerCheck_None,
    verifyStatusCode_None, verifyExactBody_None.
  tauto.
Qed.

Ltac unfold_task :=
  unfold eventsOf, run, startIn, putObjectTask, uploadPartTask,
    getObjectRangeTask, getObjectIfModifiedSinceTask,
    getObjectIfNoneMatchTask, removeObjectTask, sendErrReturn, partMessage,
    pBind, liftSt, exec, defer, emit, ret, orPanic, closeResponse;
  cbv beta zeta;
  cbn [store trace deferred opened fst snd Key Body].

Ltac split_cases :=
  repeat (match goal with
          | |- context [match ?x with _ => _ end] =>
              lazymatch x with
              | context [match _ with _ => _ end] => fail
              | _ => destruct x eqn:?
              end
          end;
          cbn [store trace deferred opened fst snd]).

Ltac use_verdicts :=
  repeat match goal with
         | H : putObjectVerify ?r ?c = _ |- _ =>
             pose proof (putObjectVerify_None r c); revert H
         | H : uploadPartVerify ?r ?c = _ |- _ =>
             pose proof (uploadPartVerify_None r c); revert H
         | H : removeObjectVerify ?r ?c = _ |- _ =>
             pose proof (removeObjectVerify_None r c); revert H
         | H : getObjectIfNoneMatchVerify ?r ?b ?c = _ |- _ =>
             pose proof (getObjectIfNoneMatchVerify_None r b c); revert H
         | H : verifyGetObjectIfModifiedSince ?r ?b ?c = _ |- _ =>
             pose proof (verifyGetObjectIfModifiedSince_None r b c); revert H
         end;
  intros.

Ltac same_calls :=
  repeat match goal with
         | H1 : ?t = _, H2 : ?t = _ |- _ => rewrite H1 in H2; simplify_eq
         end.

Ltac accept_all :=
  repeat match goal with
         | Hiff : ?v = None <-> _, Hv : ?v = Some _ |- _ =>
             exfalso;
             assert (v = None)
               by (apply Hiff; split_and!; first [assumption | congruence]);
             congruence
         end.

Ltac outcome_leaf :=
  split;
  [ first [ discriminate
          | intros _;
            repeat match goal with
                   | |- exists _, _ => eexists
                   | |- _ /\ _ => split
                   end;
            first [ reflexivity
                  | eassumption
                  | match goal with
                    | Hiff : ?v = None <-> _, Hv : ?v = None |- _ =>
                        apply Hiff in Hv; destruct Hv as (? & ? & ? & ?);
                        assumption
                    end ] ]
  | intros;
    repeat match goal with
           | H : exists _, _ |- _ => destruct H
           | H : _ /\ _ |- _ => destruct H
           end;
    simplify_eq; same_calls;
    first [ reflexivity | congruence | accept_all ] ].

(** An upload-part task that sends a message without an error has built
    the request for part number 1 of its data, had it answered and verified,
    and has done nothing but obtain the response, send the part and release
    the response. *)
Lemma uploadPartTask_success (config : ServerConfig)
    (bucket objectKey objectUploadID : string) (cur : nat)
    (objectData : list byte) (readErr : option error) (w : world) :
  err <$> sentParts (eventsOf (uploadPartTask config bucket objectKey
                                 objectUploadID cur objectData readErr) w)
  = [None] ->
  readErr = None
  /\ exists w' req res,
       newUploadPartReq config bucket objectKey objectUploadID 1 objectData w
       = Some (w', inr req)
       /\ execRequest config "PUT" req w' = inr res
       /\ answers res 200 []
       /\ eventsOf (uploadPartTask config bucket objectKey objectUploadID cur
                      objectData readErr) w
          = [Acquire 0;
             SendPart
               (mkPartChannel cur
                  (Part.mk 1
                     (TrimSuffix
                        (TrimPrefix
                           (Http.headerGet (Http.Header res) "ETag") quote)
                        quote)
                     (Z.of_nat (List.length objectData)))
                  None);
             Release 0].
Proof.
  unfold answers. destruct readErr as [e|].
  { unfold_task. simpl. discriminate. }
  destruct (newUploadPartReq config bucket objectKey objectUploadID 1
              objectData w) as [[w' [e|req]]|] eqn:Hb;
    unfold_task; rewrite Hb; cbn [store trace deferred opened fst snd];
    try (simpl; discriminate).
  destruct (execRequest config "PUT" req w') as [e|res] eqn:He;
    cbn [store trace deferred opened fst snd]; try (simpl; discriminate).
  destruct (uploadPartVerify res Http.StatusOK) as [e|] eqn:Hv;
    cbn [store trace deferred opened fst snd]; try (simpl; discriminate).
  intros _. split; [reflexivity |].
  apply uploadPartVerify_None in Hv. destruct Hv as (H1 & H2 & H3 & H4).
  exists w', req, res. split; [reflexivity |]. split; [exact He |].
  split; [| reflexivity]. split_and!; assumption.
Qed.

(** A put-object task sends [nil] exactly when the request is built, the
    server answers it, and the answer has status 200, accepted standard
    headers and an empty body; a remove-object task, exactly when the answer
    has status 204, accepted standard headers and an empty body; an
    upload-part task sends a message without an error exactly when the
    random data was read, the request is built, and the answer has status
    200, accepted standard headers and an empty body. *)
Theorem single_request_tasks_succeed_iff (config : ServerConfig)
    (bucket objectKey objectUploadID body : string) (cur : nat)
    (objectData : list byte) (readErr : option error) (w : world) :
  (sentErrs (eventsOf (putObjectTask config bucket cur body) w) = [None]
   <-> exists w' req res,
         newPutObjectReq config bucket
           ("s3verify-put-parallel" ++ Itoa (Z.of_nat cur))
           (list_byte_of_string body) w
         = Some (w', inr req)
         /\ execRequest config "PUT" req w' = inr res
         /\ answers res 200 [])
  /\ (sentErrs (eventsOf (removeObjectTask config bucket objectKey) w) = [None]
      <-> exists w' req res,
            newRemoveObjectReq config bucket objectKey w = Some (w', inr req)
            /\ execRequest config "DELETE" req w' = inr res
            /\ answers res 204 [])
  /\ (err <$> sentParts (eventsOf (uploadPartTask config bucket objectKey
                                     objectUploadID cur objectData readErr) w)
      = [None]
      <-> readErr = None
          /\ exists w' req res,
               newUploadPartReq config bucket objectKey objectUploadID 1
                 objectData w
               = Some (w', inr req)
               /\ execRequest config "PUT" req w' = inr res
               /\ answers res 200 []).
Proof.
  unfold answers, Http.StatusOK, Http.StatusNoContent.
  split_and!.
  - unfold_task. split_cases; use_verdicts; simpl; outcome_leaf.
  - unfold_task. unfold Http.StatusNoContent.
    split_cases; use_verdicts; simpl; outcome_leaf.
  - unfold_task. split_cases; use_verdicts; simpl; outcome_leaf.
Qed.

(** An if-none-match task sends [nil] exactly when the request with the
    object's entity tag is answered 304 with an empty body and the request
    with the entity tag ["1234567890"] is answered 200 with the object's
    body; an if-modified-since task, exactly when the request with the
    object's own modification time is answered 304 with an empty body and
    the request with the past date is answered 200 with the object's body.
    In both, the second request is built and sent only after the first
    answer was accepted. *)
Theorem conditional_get_tasks_succeed_iff (config : ServerConfig)
    (bucket objectKey objectETag : string) (objectBody : list byte)
    (pastDate lastModified : Z) (w : world) :
  (sentErrs (eventsOf (getObjectIfNoneMatchTask config bucket objectKey
                         objectETag objectBody) w) = [None]
   <-> exists w1 req res w2 badReq badRes,
         newGetObjectIfNoneMatchReq config bucket objectKey objectETag w
         = Some (w1, inr req)
         /\ execRequest config "GET" req w1 = inr res
         /\ answers res 304 []
         /\ newGetObjectIfNoneMatchReq config bucket objectKey "1234567890" w1
            = Some (w2, inr badReq)
         /\ execRequest config "GET" badReq w2 = inr badRes
         /\ answers badRes 200 objectBody)
  /\ (sentErrs (eventsOf (getObjectIfModifiedSinceTask config bucket pastDate
                            objectKey lastModified objectBody) w) = [None]
      <-> exists w1 req res w2 goodReq goodRes,
            newGetObjectIfModifiedSinceReq config bucket objectKey
              lastModified w
            = Some (w1, inr req)
            /\ execRequest config "GET" req w1 = inr res
            /\ answers res 304 []
            /\ newGetObjectIfModifiedSinceReq config bucket objectKey
                 pastDate w1
               = Some (w2, inr goodReq)
            /\ execRequest config "GET" goodReq w2 = inr goodRes
            /\ answers goodRes 200 objectBody).
Proof.
  unfold answers.
  split.
  - unfold_task. split_cases; use_verdicts; simpl; outcome_leaf.
  - unfold_task. split_cases; use_verdicts; simpl; outcome_leaf.
Qed.

Ltac split_total :=
  repeat (match goal with
          | |- context [match ?x with _ => _ end] =>
              lazymatch x with
              | context [match _ with _ => _ end] => fail
              | _ => destruct x eqn:?
              end
          end;
          try discriminate;
          cbn [store trace deferred opened fst snd];
          rewrite ?newPutObjectReq_run, ?newUploadPartReq_run,
            ?newGetObjectRangeReq_run, ?newGetObjectIfModifiedSinceReq_run,
            ?newGetObjectIfNoneMatchReq_run, ?newRemoveObjectReq_run).

(** Every put-object, remove-object, if-none-match and if-modified-since
    task sends exactly one result on the error channel, on every path: no
    path ends without a send, and no path sends twice. *)
Theorem every_task_reports_once (config : ServerConfig)
    (bucket objectKey objectETag body : string) (cur : nat)
    (objectBody : list byte) (pastDate lastModified : Z) (w : world) :
  (exists r, sentErrs (eventsOf (putObjectTask config bucket cur body) w) = [r])
  /\ (exists r, sentErrs (eventsOf (removeObjectTask config bucket objectKey) w)
                = [r])
  /\ (exists r, sentErrs (eventsOf (getObjectIfNoneMatchTask config bucket
                                      objectKey objectETag objectBody) w)
                = [r])
  /\ (exists r, sentErrs (eventsOf (getObjectIfModifiedSinceTask config bucket
                                      pastDate objectKey lastModified
                                      objectBody) w)
                = [r]).
Proof.
  split_and!; unfold_task;
    rewrite ?newPutObjectReq_run, ?newGetObjectIfModifiedSinceReq_run,
      ?newGetObjectIfNoneMatchReq_run, ?newRemoveObjectReq_run;
    split_total; simpl; eauto.
Qed.

(** The range task can end without a result.  It panics before it builds
    a request when the recorded size of the object is not positive
    ([rand.Int63n] panics).  When the request was built and answered, the
    slice expression [objectBody[startRange : endRange+1]] decides: if the
    upper bound drawn lies at or beyond the capacity of the body, the task
    panics, the response is released and nothing is sent; if it lies within
    the capacity, also beyond the length, the task does not panic and sends
    one result, the verdict on the response against the bytes of the backing
    array from [startRange] to [endRange]. *)
Theorem range_task_panics_without_a_result (config : ServerConfig)
    (bucket objectKey : string) (objectSize : Z)
    (objectBody objectSpare : list byte) (draw1 draw2 : Z) (w : world) :
  let task := getObjectRangeTask config bucket objectKey objectSize
                objectBody objectSpare draw1 draw2 in
  let capacity := Z.of_nat (List.length objectBody + List.length objectSpare) in
  ((objectSize <= 0)%Z ->
   snd (run task (startIn w)) = Panic /\ eventsOf task w = [])
  /\ (forall a b w' req res,
        (0 < objectSize < 2 ^ 63)%Z ->
        chooseRange objectSize draw1 draw2 = Some (a, b) ->
        newGetObjectRangeReq config bucket objectKey a b w
        = Some (w', inr req) ->
        execRequest config "GET" req w' = inr res ->
        ((capacity <= b)%Z ->
         snd (run task (startIn w)) = Panic
         /\ eventsOf task w = [Acquire 0; Release 0])
        /\ ((b < capacity)%Z ->
            snd (run task (startIn w)) <> Panic
            /\ eventsOf task w
               = [Acquire 0;
                  SendErr (getObjectVerify res
                             (take (Z.to_nat (b - a + 1))
                                (drop (Z.to_nat a)
                                   (objectBody ++ objectSpare)%list))
                             Http.StatusPartialContent);
                  Release 0])).
Proof.
  intros task capacity. subst task capacity. split.
  - intros Hsize.
    assert (Hnone : chooseRange objectSize draw1 draw2 = None).
    { unfold chooseRange, Int63n.
      destruct (Z.leb_spec objectSize 0); [reflexivity | lia]. }
    unfold_task. rewrite Hnone. split; reflexivity.
  - intros a b w' req res Hpos Hchoose Hbuild Hexec.
    destruct (chooseRange_bounds objectSize draw1 draw2 Hpos)
      as (a' & b' & Hc & Hab & Hb).
    rewrite Hchoose in Hc. injection Hc as <- <-.
    split.
    + intros Hcap.
      assert (Hslice : sliceBytes objectBody objectSpare a (wrap64 (b + 1))
                       = None).
      { rewrite wrap64_small by lia. apply sliceBytes_beyond. lia. }
      unfold_task. rewrite Hchoose.
      cbv beta zeta iota. cbn [store trace deferred opened fst snd].
      rewrite Hbuild. cbn [store trace deferred opened fst snd].
      rewrite Hexec. cbn [store trace deferred opened fst snd].
      rewrite Hslice. split; reflexivity.
    + intros Hcap.
      assert (Hslice : sliceBytes objectBody objectSpare a (wrap64 (b + 1))
                       = Some (take (Z.to_nat (b - a + 1))
                                 (drop (Z.to_nat a)
                                    (objectBody ++ objectSpare)%list))).
      { rewrite wrap64_small by lia.
        rewrite sliceBytes_within by lia.
        replace (b + 1 - a)%Z with (b - a + 1)%Z by lia. reflexivity. }
      unfold_task. rewrite Hchoose.
      cbv beta zeta iota. cbn [store trace deferred opened fst snd].
      rewrite Hbuild. cbn [store trace deferred opened fst snd].
      rewrite Hexec. cbn [store trace deferred opened fst snd].
      rewrite Hslice. cbn [store trace deferred opened fst snd].
      destruct (getObjectVerify res _ Http.StatusPartialContent);
        (split; [discriminate | reflexivity]).
Qed.

(** With a recorded size between 1 and the largest [int64], the bounds the
    range probe can draw are exactly the pairs [0 <= a <= b < size]: every
    such pair, a single byte and the whole object included, comes out of
    some pair of draws, and no other pair does. *)
Theorem range_probe_reaches_every_range (objectSize a b : Z) :
  (0 < objectSize < 2 ^ 63)%Z ->
  (exists draw1 draw2, chooseRange objectSize draw1 draw2 = Some (a, b))
  <-> (0 <= a <= b)%Z /\ (b < objectSize)%Z.
Proof.
  intros Hsize. split.
  - intros (draw1 & draw2 & Hc).
    destruct (chooseRange_bounds objectSize draw1 draw2 Hsize)
      as (a' & b' & Hc' & Hab & Hb).
    rewrite Hc in Hc'. injection Hc' as <- <-. split; assumption.
  - intros [Hab Hb]. exists a, (b - a)%Z.
    unfold chooseRange, Int63n.
    destruct (Z.leb_spec objectSize 0); [lia |].
    rewrite (Z.mod_small a objectSize) by lia.
    rewrite (wrap64_small (objectSize - a)) by lia.
    destruct (Z.leb_spec (objectSize - a) 0); [lia |].
    rewrite (Z.mod_small (b - a) (objectSize - a)) by lia.
    rewrite wrap64_small by lia.
    f_equal. f_equal. lia.
Qed.

End TaskOutcomes.

(** ** What a successful upload-part run leaves in the uploads *)

Lemma elem_of_concat_events {A} (x : A) (ls : list (list A)) :
  x ∈ List.concat ls <-> exists l, l ∈ ls /\ x ∈ l.
Proof.
  rewrite list_elem_of_In, in_concat. split.
  - intros (l & Hl & Hx). exists l.
    split; apply list_elem_of_In; assumption.
  - intros (l & Hl & Hx). exists l.
    split; apply list_elem_of_In; assumption.
Qed.

Section UploadPartRun.
Context {env : Collaborators}.

Lemma filter_index_beyond (l : list partChannel) (n i : nat) :
  index <$> l = seq 0 n ->
  (n <= i)%nat ->
  filter (fun m => index m = i) l = [].
Proof.
  intros Hl Hi.
  destruct (filter (fun m => index m = i) l) as [|m' l'] eqn:E;
    [reflexivity |].
  exfalso.
  assert (Hin : m' ∈ filter (fun m0 => index m0 = i) l) by (rewrite E; left).
  apply list_elem_of_filter in Hin as [Hidx Hin].
  assert (Hin' : index m' ∈ seq 0 n).
  { rewrite <- Hl. apply list_elem_of_fmap. eauto. }
  apply elem_of_seq in Hin'. lia.
Qed.

(** C10 (as amended): in a run of the upload-part test in which every
    result received is a success, with no more multipart objects than
    uploads in [complMultipartUploads], every task has built and executed
    one PUT for its object, with the query [partNumber=1] and the upload id
    of the object and the random data as body, has had the answer verified,
    and has sent one part, of part number 1, tagged with the position of its
    object; the loop receives all the parts, in whatever order they arrive,
    and every upload whose position is below [len(multipartObjects)] ends
    with exactly one part more than before, of part number 1, while the
    uploads beyond are as before. *)
Theorem every_upload_ends_with_one_part (config : ServerConfig)
    (bucket : string) (multipartObjects : list ObjectInfo)
    (inputs : nat -> partInput) (arrival : list partChannel)
    (reg : registry) :
  (List.length multipartObjects
   <= List.length (complMultipartUploads reg))%nat ->
  arrival
  ≡ₚ List.concat (sentParts
               <$> uploadPartDispatch config bucket multipartObjects inputs) ->
  Forall (fun m => err m = None) arrival ->
  (forall i object,
     multipartObjects !! i = Some object ->
     inputReadErr (inputs i) = None
     /\ exists w' req res,
          newUploadPartReq config bucket (Key object) (UploadID object) 1
            (inputData (inputs i)) (inputStore (inputs i))
          = Some (w', inr req)
          /\ deref w' (queryValues req) !! "partNumber" = Some ["1"]
          /\ deref w' (queryValues req) !! "uploadId"
             = Some [UploadID object]
          /\ contentBody req = Some (inputData (inputs i))
          /\ execRequest config "PUT" req w' = inr res
          /\ answers res 200 []
          /\ exists etag,
               eventsOf (uploadPartTask config bucket (Key object)
                           (UploadID object) i (inputData (inputs i))
                           (inputReadErr (inputs i)))
                 (inputStore (inputs i))
               = [Acquire 0;
                  SendPart
                    (mkPartChannel i
                       (Part.mk 1 etag
                          (Z.of_nat (List.length (inputData (inputs i)))))
                       None);
                  Release 0])
  /\ exists reg',
       awaitParts (List.length multipartObjects) (mkChan arrival false) reg
       = (Drained, mkChan [] false, reg')
       /\ List.length (complMultipartUploads reg')
          = List.length (complMultipartUploads reg)
       /\ forall i u,
            complMultipartUploads reg !! i = Some u ->
            exists u',
              complMultipartUploads reg' !! i = Some u'
              /\ if decide (i < List.length multipartObjects)%nat
                 then exists p,
                        Complete.Parts u' = (Complete.Parts u ++ [p])%list
                        /\ Complete.PartNumber p = 1%Z
                 else Complete.Parts u' = Complete.Parts u.
Proof.
  intros Hlen Hperm Hok.
  set (F := fun i object =>
              eventsOf (uploadPartTask config bucket (Key object)
                          (UploadID object) i (inputData (inputs i))
                          (inputReadErr (inputs i)))
                (inputStore (inputs i))).
  assert (HF : forall i x, sendsOnePart (0 + i) (F i x)).
  { intros i x. apply uploadPartTask_sendsOnePart. }
  destruct (imap_sendsOnePart F multipartObjects 0%nat HF) as [Hidx0 Hone0].
  set (msgs := List.concat (sentParts
                 <$> uploadPartDispatch config bucket multipartObjects inputs))
    in *.
  assert (Hidx : index <$> msgs = seq 0 (List.length multipartObjects))
    by exact Hidx0.
  assert (Hone : Forall (fun m => Part.PartNumber (objPart m) = 1%Z) msgs)
    by exact Hone0.
  clear Hidx0 Hone0.
  split.
  { intros i object Hobj.
    destruct (HF i object) as (m & Hm & _ & _).
    assert (Hin : m ∈ msgs).
    { unfold msgs. apply elem_of_concat_events.
      exists (sentParts (F i object)).
      split; [| rewrite Hm; left].
      apply list_elem_of_fmap. exists (F i object). split; [reflexivity |].
      unfold uploadPartDispatch. fold F.
      apply elem_of_lookup_imap. exists i, object. split; [reflexivity | exact Hobj]. }
    assert (Herr : err m = None).
    { apply (proj1 (Forall_forall _ _) Hok). rewrite Hperm. exact Hin. }
    assert (Hsent : err <$> sentParts (F i object) = [None])
      by (rewrite Hm; simpl; rewrite Herr; reflexivity).
    destruct (uploadPartTask_success config bucket (Key object)
                (UploadID object) i (inputData (inputs i))
                (inputReadErr (inputs i)) (inputStore (inputs i)) Hsent)
      as (Hread & w' & req & res & Hb & He & Hans & Hev).
    split; [exact Hread |].
    destruct (newUploadPartReq_query config bucket (Key object)
                (UploadID object) 1 (inputData (inputs i))
                (inputStore (inputs i)) w' req Hb) as (Hq1 & Hq2 & Hbody).
    exists w', req, res. split_and!; try assumption.
    eexists. exact Hev. }
  assert (HlenArr : List.length arrival = List.length multipartObjects).
  { rewrite (Permutation_length Hperm).
    rewrite <- (length_fmap index msgs), Hidx. apply length_seq. }
  assert (Hrange : Forall (fun m => err m = None
              /\ (index m < List.length (complMultipartUploads reg))%nat)
            arrival).
  { apply Forall_forall. intros m Hm.
    split; [exact (proj1 (Forall_forall _ _) Hok m Hm) |].
    assert (Hin : index m ∈ index <$> msgs).
    { apply list_elem_of_fmap. exists m. split; [reflexivity |].
      rewrite <- Hperm. exact Hm. }
    rewrite Hidx in Hin. apply elem_of_seq in Hin. lia. }
  destruct (awaitParts_drain arrival [] false reg Hrange) as [reg' Hrun].
  rewrite app_nil_r, HlenArr in Hrun.
  exists reg'. split; [exact Hrun |].
  assert (Hidxs : Forall (fun m => (index m
              < List.length (complMultipartUploads reg))%nat) arrival).
  { eapply Forall_impl; [exact Hrange |]. intros m [_ H]. exact H. }
  destruct (awaitParts_slots (List.length multipartObjects) arrival false
              reg Hidxs) as [Hslots Hparts].
  rewrite Hrun in Hslots, Hparts. simpl snd in Hslots, Hparts.
  split; [exact Hslots |].
  intros i u Hu.
  specialize (Hparts i). rewrite Hu in Hparts. simpl in Hparts.
  rewrite <- HlenArr, (acceptedParts_all arrival Hok) in Hparts.
  destruct (complMultipartUploads reg' !! i) as [u'|]; [| discriminate].
  simpl in Hparts. injection Hparts as Hparts.
  exists u'. split; [reflexivity |].
  unfold partsFor in Hparts.
  destruct (decide (i < List.length multipartObjects)%nat) as [Hi|Hi].
  - destruct (filter_index_seq msgs 0 (List.length multipartObjects) i Hidx
                ltac:(lia)) as [m Hm].
    assert (Harr : filter (fun m0 => index m0 = i) arrival = [m]).
    { apply Permutation.Permutation_length_1_inv. rewrite <- Hm.
      rewrite Hperm. reflexivity. }
    assert (Hpn : Part.PartNumber (objPart m) = 1%Z).
    { assert (Hin : m ∈ filter (fun m0 => index m0 = i) msgs)
        by (rewrite Hm; left).
      apply list_elem_of_filter in Hin as [_ Hin].
      exact (proj1 (Forall_forall _ _) Hone m Hin). }
    rewrite Harr in Hparts.
    exists (toCompletePart (objPart m)). split; [exact Hparts | exact Hpn].
  - assert (Harr : filter (fun m0 => index m0 = i) arrival = []).
    { apply Permutation.Permutation_nil. symmetry.
      rewrite <- (filter_index_beyond msgs (List.length multipartObjects) i
                    Hidx ltac:(lia)).
      rewrite Hperm. reflexivity. }
    rewrite Harr in Hparts. simpl in Hparts. rewrite app_nil_r in Hparts.
    exact Hparts.
Qed.

End UploadPartRun.

Lemma every_upload_ends_with_one_part_witness :
  let part := Part.mk 1 Sample.etag 5 in
  exists reg',
    awaitParts 2
      (mkChan [mkPartChannel 1 part None; mkPartChannel 0 part None] false)
      initialRegistry
    = (Drained, mkChan [] false, reg')
    /\ forall i u,
         complMultipartUploads initialRegistry !! i = Some u ->
         exists u',
           complMultipartUploads reg' !! i = Some u'
           /\ if decide (i < 2)%nat
              then exists p,
                     Complete.Parts u' = (Complete.Parts u ++ [p])%list
                     /\ Complete.PartNumber p = 1%Z
              else Complete.Parts u' = Complete.Parts u.
Proof.
  cbv zeta.
  destruct (every_upload_ends_with_one_part (env := Sample.env)
              Sample.config "bucket"
              [mkObjectInfo "s3verify-multipart-0" [] "" 0 0 "upload-0";
               mkObjectInfo "s3verify-multipart-1" [] "" 0 0 "upload-1"]
              (fun _ => mkPartInput Sample.payload None
                          (initialWorld (env := Sample.env)))
              [mkPartChannel 1 (Part.mk 1 Sample.etag 5) None;
               mkPartChannel 0 (Part.mk 1 Sample.etag 5) None]
              initialRegistry)
    as (_ & reg' & Hrun & _ & Hparts).
  - simpl. lia.
  - vm_compute. apply perm_swap.
  - repeat constructor.
  - exists reg'. split; [exact Hrun | exact Hparts].
Defined.

(** C10 (as stated) fails: with one multipart object the task uploads its
    part, the run succeeds, and the second of the two uploads in
    [complMultipartUploads] ends without a part. *)
Lemma one_multipart_object_leaves_an_upload_without_part :
  let multipartObjects :=
    [mkObjectInfo "s3verify-multipart-0" [] "" 0 0 "upload-0"] in
  let arrival :=
    List.concat
      (sentParts
         <$> uploadPartDispatch (env := Sample.env) Sample.config "bucket"
               multipartObjects
               (fun _ => mkPartInput Sample.payload None
                           (initialWorld (env := Sample.env)))) in
  arrival = [mkPartChannel 0 (Part.mk 1 Sample.etag 5) None]
  /\ fst (awaitParts (List.length multipartObjects) (mkChan arrival false)
            initialRegistry)
     = (Drained, mkChan [] false)
  /\ (List.length ∘ Complete.Parts)
       <$> complMultipartUploads
             (snd (awaitParts (List.length multipartObjects)
                     (mkChan arrival false) initialRegistry))
     = [1%nat; 0%nat].
Proof. vm_compute. repeat split; reflexivity. Qed.

Lemma range_task_panics_without_a_result_witness :
  let probe size spare :=
    getObjectRangeTask (env := Sample.env) Sample.config "bucket"
      "s3verify-put-parallel0" size Sample.payload spare 7 0 in
  eventsOf (probe 0%Z []) (initialWorld (env := Sample.env)) = []
  /\ eventsOf (probe 10%Z [x00; x00]) (initialWorld (env := Sample.env))
     = [Acquire 0; Release 0]
  /\ exists r,
       eventsOf (probe 10%Z [x00; x00; x00]) (initialWorld (env := Sample.env))
       = [Acquire 0; SendErr r; Release 0].
Proof.
  cbv zeta.
  pose proof (range_task_panics_without_a_result (env := Sample.env)
                Sample.config "bucket" "s3verify-put-parallel0" 0
                Sample.payload [] 7 0 (initialWorld (env := Sample.env)))
    as H0.
  pose proof (range_task_panics_without_a_result (env := Sample.env)
                Sample.config "bucket" "s3verify-put-parallel0" 10
                Sample.payload [x00; x00] 7 0
                (initialWorld (env := Sample.env))) as H1.
  pose proof (range_task_panics_without_a_result (env := Sample.env)
                Sample.config "bucket" "s3verify-put-parallel0" 10
                Sample.payload [x00; x00; x00] 7 0
                (initialWorld (env := Sample.env))) as H2.
  cbv zeta in H0, H1, H2.
  destruct H0 as [H0 _]. destruct H1 as [_ H1]. destruct H2 as [_ H2].
  destruct (newGetObjectRangeReq (env := Sample.env) Sample.config "bucket"
              "s3verify-put-parallel0" 7 7
              (initialWorld (env := Sample.env)))
    as [[w' [e|req]]|] eqn:Hb; try (vm_compute in Hb; discriminate).
  split; [| split].
  - apply H0. lia.
  - apply (H1 7%Z 7%Z w' req Sample.uploadResponse).
    + lia.
    + reflexivity.
    + exact Hb.
    + reflexivity.
    + simpl. lia.
  - eexists.
    apply (H2 7%Z 7%Z w' req Sample.uploadResponse).
    + lia.
    + reflexivity.
    + exact Hb.
    + reflexivity.
    + simpl. lia.
Defined.

Lemma range_probe_reaches_every_range_witness :
  exists draw1 draw2, chooseRange 5 draw1 draw2 = Some (4%Z, 4%Z).
Proof.
  apply (proj2 (range_probe_reaches_every_range 5 4 4 ltac:(lia))). lia.
Defined.

(** ** The put-object test as a whole *)

Lemma applyStores_spec (t : list event) :
  forall (reg : registry),
    NoDup (storedSlots t) ->
    (forall cur, cur ∈ storedSlots t -> (cur < List.length (objects reg))%nat) ->
    exists reg',
      applyStores reg t = Some reg'
      /\ List.length (objects reg') = List.length (objects reg)
      /\ objectParts reg' = objectParts reg
      /\ complMultipartUploads reg' = complMultipartUploads reg
      /\ (forall cur o,
            StoreObject cur o ∈ t -> objects reg' !! cur = Some (Some o))
      /\ (forall i, i ∉ storedSlots t -> objects reg' !! i = objects reg !! i).
Proof.
  induction t as [|ev t IH]; intros reg Hnd Hin.
  - exists reg. simpl. split_and!; try reflexivity.
    intros cur o H. apply elem_of_nil in H. contradiction.
  - destruct ev as [h|h|r|m|c o|b ob];
      try (destruct (IH reg Hnd Hin) as (reg' & Hrun & Hlen & Hp & Hc & Hs & Ho);
           exists reg'; simpl; split_and!; try assumption;
           intros cur o' H; apply elem_of_cons in H as [H|H];
           [discriminate | apply Hs; exact H]).
    change (storedSlots (StoreObject c o :: t)) with (c :: storedSlots t)
      in Hnd, Hin.
    apply NoDup_cons in Hnd as [Hfresh Hnd].
    assert (Hc : (c < List.length (objects reg))%nat)
      by (apply Hin; left).
    destruct (lookup_lt_is_Some_2 _ _ Hc) as [old Hold].
    simpl. unfold storeObject. rewrite Hold.
    set (reg1 := mkRegistry _ _ _).
    assert (Hlen1 : List.length (objects reg1) = List.length (objects reg))
      by (unfold reg1; simpl; apply length_insert).
    destruct (IH reg1 Hnd) as (reg' & Hrun & Hlen & Hp & Hcm & Hs & Ho).
    { intros cur Hcur. rewrite Hlen1. apply Hin. right. exact Hcur. }
    exists reg'. split; [exact Hrun |].
    split; [rewrite Hlen; exact Hlen1 |].
    split; [exact Hp |]. split; [exact Hcm |]. split.
    + intros cur o' H. apply elem_of_cons in H as [H|H].
      * injection H as -> ->. rewrite (Ho c Hfresh).
        unfold reg1. simpl. apply list_lookup_insert_eq. exact Hc.
      * apply Hs. exact H.
    + intros i Hi.
      change (storedSlots (StoreObject c o :: t)) with (c :: storedSlots t) in Hi.
      apply not_elem_of_cons in Hi as [Hne Hi].
      rewrite (Ho i Hi). unfold reg1. simpl.
      apply list_lookup_insert_ne. congruence.
Qed.

Section PutObjectRunFacts.
Context {env : Collaborators}.

Lemma putObjectTask_verified (config : ServerConfig) (bucket : string)
    (cur : nat) (body : string) (w : world) :
  None ∈ sentErrs (eventsOf (putObjectTask config bucket cur body) w)
  \/ (forall r, r ∈ sentErrs (eventsOf (putObjectTask config bucket cur body) w)
                -> r = None) ->
  eventsOf (putObjectTask config bucket cur body) w = verifiedUpload cur body.
Proof.
  intros H.
  destruct (putObjectTask_events config bucket cur body w)
    as [[e He] | [[e He] | He]]; rewrite He in *; try reflexivity.
  - exfalso. destruct H as [H|H].
    + apply list_elem_of_singleton in H. discriminate.
    + specialize (H (Some e)). simpl in H.
      assert (Some e = None) by (apply H; left). discriminate.
  - exfalso. destruct H as [H|H].
    + apply list_elem_of_singleton in H. discriminate.
    + specialize (H (Some e)). simpl in H.
      assert (Some e = None) by (apply H; left). discriminate.
Qed.

Lemma verifiedUploads_stored (inputs : nat -> putInput) (n : nat) :
  forall k,
    storedSlots (List.concat ((fun cur => verifiedUpload cur (inputBody (inputs cur)))
                           <$> seq k n))
    = seq k n
    /\ sentErrs (List.concat ((fun cur => verifiedUpload cur (inputBody (inputs cur)))
                           <$> seq k n))
       = replicate n None
    /\ forall cur, (k <= cur < k + n)%nat ->
         StoreObject cur (putObjectOf cur (inputBody (inputs cur)))
         ∈ List.concat ((fun cur => verifiedUpload cur (inputBody (inputs cur)))
                      <$> seq k n).
Proof.
  induction n as [|n IH]; intros k.
  - split_and!; try reflexivity. intros cur H. lia.
  - destruct (IH (S k)) as (IH1 & IH2 & IH3).
    simpl seq. rewrite fmap_cons, concat_cons.
    unfold storedSlots, sentErrs in *. rewrite !omap_app, IH1, IH2.
    split_and!; try reflexivity.
    intros cur Hcur. apply elem_of_app.
    destruct (decide (cur = k)) as [->|Hne].
    + left. unfold verifiedUpload. right. left.
    + right. apply IH3. lia.
Qed.

(** When every put-object task of a run reports success, then, whatever
    the order in which the events of the tasks interleave, the loop of
    [mainPutObject] takes all the results and counts down to zero, and the
    assignments of the tasks, applied in that order, leave in every slot
    [objects[cur]] the object that the task of that slot uploaded; the other
    registries are as before. *)
Theorem put_object_run_fills_every_slot (config : ServerConfig)
    (bucket : string) (inputs : nat -> putInput) (reg : registry)
    (interleaving : list event) :
  interleaving
  ≡ₚ List.concat (putObjectDispatch config bucket (List.length (objects reg))
                    inputs) ->
  Forall (fun r => r = None) (sentErrs interleaving) ->
  awaitErrors (List.length (objects reg))
    (mkChan (sentErrs interleaving) false)
  = (Drained, mkChan [] false)
  /\ exists reg',
       applyStores reg interleaving = Some reg'
       /\ objects reg'
          = (fun cur => Some (putObjectOf cur (inputBody (inputs cur))))
              <$> seq 0 (List.length (objects reg))
       /\ objectParts reg' = objectParts reg
       /\ complMultipartUploads reg' = complMultipartUploads reg.
Proof.
  intros Hperm Hok.
  set (n := List.length (objects reg)) in *.
  assert (Htasks : putObjectDispatch config bucket n inputs
                   = (fun cur => verifiedUpload cur (inputBody (inputs cur)))
                       <$> seq 0 n).
  { unfold putObjectDispatch. apply list_fmap_ext. intros i cur Hcur.
    apply putObjectTask_verified. right. intros r Hr.
    apply (proj1 (Forall_forall _ _) Hok).
    unfold sentErrs. rewrite Hperm. fold (sentErrs).
    apply list_elem_of_omap.
    apply list_elem_of_omap in Hr as (ev & Hev & Hsend).
    exists ev. split; [| exact Hsend].
    apply elem_of_concat_events. eexists. split; [| exact Hev].
    unfold putObjectDispatch. apply list_elem_of_fmap. exists cur.
    split; [reflexivity |].
    apply list_elem_of_lookup. exists i. exact Hcur. }
  rewrite Htasks in Hperm.
  destruct (verifiedUploads_stored inputs n 0) as (Hslots & Hsent & Hstores).
  assert (HpermSlots : storedSlots interleaving ≡ₚ seq 0 n).
  { rewrite <- Hslots. unfold storedSlots. rewrite Hperm. reflexivity. }
  assert (HlenSent : List.length (sentErrs interleaving) = n).
  { assert (Hp : sentErrs interleaving ≡ₚ replicate n None).
    { rewrite <- Hsent. unfold sentErrs. rewrite Hperm. reflexivity. }
    rewrite (Permutation_length Hp). apply length_replicate. }
  split.
  { pose proof (awaitErrors_drain (sentErrs interleaving) [] false Hok) as H.
    rewrite app_nil_r, HlenSent in H. exact H. }
  destruct (applyStores_spec interleaving reg)
    as (reg' & Hrun & Hlen & Hp & Hc & Hs & _).
  { rewrite HpermSlots. apply NoDup_seq. }
  { intros cur Hcur. rewrite HpermSlots in Hcur.
    apply elem_of_seq in Hcur. fold n. lia. }
  exists reg'. split; [exact Hrun |]. split; [| split; assumption].
  apply list_eq. intros i. rewrite list_lookup_fmap.
  destruct (decide (i < n)%nat) as [Hi|Hi].
  - rewrite lookup_seq_lt by exact Hi. simpl.
    apply Hs. rewrite Hperm. apply Hstores. lia.
  - rewrite lookup_seq_ge by lia. simpl.
    apply lookup_ge_None. rewrite Hlen. fold n. lia.
Qed.

End PutObjectRunFacts.

Lemma put_object_run_fills_every_slot_witness :
  let reg := mkRegistry [None; None] [] [] in
  let late := verifiedUpload 1 "b" in
  let early := verifiedUpload 0 "a" in
  exists reg',
    applyStores reg (late ++ early)%list = Some reg'
    /\ objects reg' = [Some (putObjectOf 0 "a"); Some (putObjectOf 1 "b")].
Proof.
  cbv zeta.
  destruct (put_object_run_fills_every_slot (env := Sample.env)
              Sample.config "bucket"
              (fun cur => mkPutInput (if decide (cur = 0%nat) then "a" else "b")
                            (initialWorld (env := Sample.env)))
              (mkRegistry [None; None] [] [])
              (verifiedUpload 1 "b" ++ verifiedUpload 0 "a")%list)
    as (_ & reg' & Hrun & Hobjects & _).
  - vm_compute. apply Permutation_app_comm with (l := [_; _; _; _]) (l' := [_; _; _; _]).
  - repeat constructor.
  - exists reg'. split; [exact Hrun | exact Hobjects].
Defined.

(** ** The keys of the uploaded objects *)

Lemma to_int_not_nil (z : Z) :
  Z.to_int z <> Decimal.Pos Decimal.Nil
  /\ Z.to_int z <> Decimal.Neg Decimal.Nil.
Proof.
  pose proof (DecimalZ.to_of (Z.to_int z)) as H.
  rewrite DecimalZ.of_to in H.
  split; intros Heq; rewrite Heq in H; vm_compute in H; discriminate.
Qed.

Lemma Itoa_inj (a b : Z) : Itoa a = Itoa b -> a = b.
Proof.
  unfold Itoa. intros H.
  apply (f_equal NilZero.int_of_string) in H.
  destruct (to_int_not_nil a) as [Ha1 Ha2].
  destruct (to_int_not_nil b) as [Hb1 Hb2].
  rewrite !NilZero.isi in H by assumption.
  injection H as H. apply DecimalZ.to_int_inj. exact H.
Qed.

Lemma append_cancel_l (p x y : string) : p ++ x = p ++ y -> x = y.
Proof.
  induction p as [|c p IH]; simpl; [tauto |].
  intros [= H]. exact (IH H).
Qed.

(** Put-object tasks of different slots upload under different keys, so
    the objects of one run have pairwise distinct keys, whatever their
    random bodies. *)
Theorem put_object_keys_are_distinct (bodies : nat -> string) (slots : nat)
    (cur1 cur2 : nat) :
  (Key (putObjectOf cur1 (bodies cur1)) = Key (putObjectOf cur2 (bodies cur2))
   <-> cur1 = cur2)
  /\ NoDup ((fun cur => Key (putObjectOf cur (bodies cur))) <$> seq 0 slots).
Proof.
  assert (Hinj : forall c1 c2,
            Key (putObjectOf c1 (bodies c1)) = Key (putObjectOf c2 (bodies c2))
            -> c1 = c2).
  { intros c1 c2 H. unfold putObjectOf in H. cbn [Key] in H.
    apply append_cancel_l, Itoa_inj in H. lia. }
  split.
  - split; [apply Hinj | intros ->; reflexivity].
  - apply NoDup_fmap_2_strong; [| apply NoDup_seq].
    intros c1 c2 _ _ H. apply Hinj. exact H.
Qed.

(** ** The set-up and the cleanup of the if-match test *)

Section IfMatchSetup.
Context {env : Collaborators}.

Lemma GetObjectIfMatchInit_names (config : ServerConfig)
    (seed1 seed2 : Z) (buf : list byte) (readErr : option error) :
  exists tag initErr,
    GetObjectIfMatchInit config seed1 seed2 buf readErr
    = (randString 60 seed1 "s3verify-get", randString 60 seed2 "s3verify-get",
       tag, buf, initErr).
Proof.
  unfold GetObjectIfMatchInit.
  repeat match goal with
         | |- context [match ?x with _ => _ end] => destruct x
         end; eauto.
Qed.

(** [GetObjectIfMatchInit] returns the two random names and the random
    buffer on every path; it returns no error exactly when the buffer was
    read, the endpoint parsed, the client created, the bucket made, the
    object uploaded and its metadata fetched, and then the entity tag is the
    one fetched; with an error the entity tag is empty. *)
Theorem init_returns_names_on_every_path (config : ServerConfig)
    (seed1 seed2 : Z) (buf : list byte) (readErr : option error) :
  let bucket := randString 60 seed1 "s3verify-get" in
  let object := randString 60 seed2 "s3verify-get" in
  exists tag initErr,
    GetObjectIfMatchInit config seed1 seed2 buf readErr
    = (bucket, object, tag, buf, initErr)
    /\ (initErr = None
        <-> readErr = None
            /\ exists host,
                 urlParseHost (Endpoint config) = inr host
                 /\ minioNew host (Access config) (Secret config) true = None
                 /\ MakeBucket bucket (Region config) = None
                 /\ PutObject bucket object buf "binary/octet-stream" = None
                 /\ StatObject bucket object = inr tag)
    /\ (initErr <> None -> tag = "")
    /\ (forall e, readErr = Some e -> initErr = Some e).
Proof.
  intros bucket object. unfold GetObjectIfMatchInit. fold bucket object.
  destruct readErr as [e|].
  { do 2 eexists. split; [reflexivity |]. split_and!.
    - split; [discriminate | intros [? _]; discriminate].
    - reflexivity.
    - intros e' [= ->]. reflexivity. }
  destruct (urlParseHost (Endpoint config)) as [e|host] eqn:Hurl.
  { do 2 eexists. split; [reflexivity |]. split_and!.
    - split; [discriminate | intros (_ & h & ? & _); discriminate].
    - reflexivity.
    - intros e' [=]. }
  destruct (minioNew host (Access config) (Secret config) true) as [e|] eqn:Hnew.
  { do 2 eexists. split; [reflexivity |]. split_and!.
    - split; [discriminate | intros (_ & h & [= <-] & ? & _); congruence].
    - reflexivity.
    - intros e' [=]. }
  destruct (MakeBucket bucket (Region config)) as [e|] eqn:Hmk.
  { do 2 eexists. split; [reflexivity |]. split_and!.
    - split; [discriminate | intros (_ & h & _ & _ & ? & _); congruence].
    - reflexivity.
    - intros e' [=]. }
  destruct (PutObject bucket object buf "binary/octet-stream") as [e|] eqn:Hput.
  { do 2 eexists. split; [reflexivity |]. split_and!.
    - split; [discriminate | intros (_ & h & _ & _ & _ & ? & _); congruence].
    - reflexivity.
    - intros e' [=]. }
  destruct (StatObject bucket object) as [e|etag] eqn:Hstat.
  { do 2 eexists. split; [reflexivity |]. split_and!.
    - split; [discriminate | intros (_ & h & _ & _ & _ & _ & ?); congruence].
    - reflexivity.
    - intros e' [=]. }
  do 2 eexists. split; [reflexivity |]. split_and!.
  - split; [| reflexivity]. intros _. split; [reflexivity |].
    exists host. split_and!; assumption || reflexivity.
  - intros H. contradiction.
  - intros e' [=].
Qed.

Ltac run_main' :=
  unfold eventsOf, run, startIn, mainGetObjectIfMatch, cleanUpReturn,
    pBind, liftSt, exec, emit, ret;
  cbn [store trace deferred opened fst snd].

Ltac main_cases' :=
  repeat (match goal with
          | |- context [match ?x with _ => _ end] =>
              lazymatch x with
              | context [match _ with _ => _ end] => fail
              | _ => destruct x eqn:?
              end
          end;
          try discriminate;
          cbn [store trace deferred opened fst snd]).

(** Every run of [mainGetObjectIfMatch] that does not panic asks for the
    cleanup of its bucket and object exactly once, as its last step,
    whether the test passed or failed; and an error of the cleanup is what
    the function returns, in place of the verdict of the test. *)
Theorem if_match_test_cleans_up_once (config : ServerConfig)
    (seed1 seed2 : Z) (randomBuf : list byte) (readErr : option error)
    (w : world) :
  let bucket := randString 60 seed1 "s3verify-get" in
  let object := randString 60 seed2 "s3verify-get" in
  let outcome := run (mainGetObjectIfMatch config seed1 seed2 randomBuf readErr)
                   (startIn w) in
  snd outcome = Panic
  \/ (cleanUps (trace (fst outcome)) = [(bucket, object)]
      /\ (exists before, trace (fst outcome)
                         = (before ++ [CleanUp bucket object])%list)
      /\ (forall errC,
            GetObjectCleanUp config bucket object = Some errC ->
            snd outcome = Return (Some errC))
      /\ (snd outcome = Return None ->
          GetObjectCleanUp config bucket object = None)).
Proof.
  intros bucket object outcome. subst outcome.
  destruct (GetObjectIfMatchInit_names config seed1 seed2 randomBuf readErr)
    as (tag & initErr & Hinit).
  fold bucket object in Hinit.
  unfold mainGetObjectIfMatch. rewrite Hinit.
  unfold run, startIn, cleanUpReturn, pBind, liftSt, exec, emit, ret.
  cbn [store trace deferred opened fst snd].
  main_cases'; simpl;
    first [ left; reflexivity
          | right; split; [reflexivity |];
            split; [ first [ exists []; reflexivity
                           | exists [Acquire 0]; reflexivity
                           | exists [Acquire 0; Acquire 1]; reflexivity ] |];
            split; [intros errC H; congruence | congruence] ].
Qed.

End IfMatchSetup.

(** ** The entity tag of an uploaded part *)

Lemma substring_all (s : string) :
  String.substring 0 (String.length s) s = s.
Proof. induction s as [|c s IH]; simpl; [reflexivity | rewrite IH; reflexivity]. Qed.

Lemma length_append_quote (t : string) :
  String.length (t ++ quote) = S (String.length t).
Proof. induction t as [|c t IH]; simpl; [reflexivity | rewrite IH; reflexivity]. Qed.

Lemma substring_last_quote (t : string) :
  String.substring (String.length t) 1 (t ++ quote) = quote.
Proof. induction t as [|c t IH]; simpl; [reflexivity | exact IH]. Qed.

Lemma substring_before_quote (t : string) :
  String.substring 0 (String.length t) (t ++ quote) = t.
Proof. induction t as [|c t IH]; simpl; [reflexivity | rewrite IH; reflexivity]. Qed.

Lemma TrimPrefix_quote (s : string) : TrimPrefix (quote ++ s) quote = s.
Proof.
  unfold TrimPrefix.
  change (quote ++ s) with (String (ascii_of_nat 34) s).
  assert (String.prefix quote (String (ascii_of_nat 34) s) = true) as ->
    by (destruct s; reflexivity).
  change (String.length quote) with 1%nat. cbn [String.length].
  replace (S (String.length s) - 1)%nat with (String.length s) by lia.
  change (String.substring 1 (String.length s) (String (ascii_of_nat 34) s))
    with (String.substring 0 (String.length s) s).
  apply substring_all.
Qed.

Lemma unquote_quoted (t : string) :
  TrimSuffix (TrimPrefix (quote ++ t ++ quote) quote) quote = t.
Proof.
  rewrite TrimPrefix_quote. unfold TrimSuffix, HasSuffix.
  rewrite length_append_quote. change (String.length quote) with 1%nat.
  replace (S (String.length t) - 1)%nat with (String.length t) by lia.
  rewrite substring_last_quote, String.eqb_refl. simpl.
  apply substring_before_quote.
Qed.

Section PartEntityTag.
Context {env : Collaborators}.

(** A part whose upload was verified is sent back with part number 1, the
    length of the data uploaded as its size, and the [ETag] header of the
    response as its entity tag; a tag that the server sends between double
    quotes is stored without them. *)
Theorem verified_part_carries_unquoted_etag (config : ServerConfig)
    (bucket objectKey objectUploadID tag : string) (cur : nat)
    (objectData : list byte) (w w' : world) (req : Request)
    (res : Http.Response) :
  newUploadPartReq config bucket objectKey objectUploadID 1 objectData w
  = Some (w', inr req) ->
  execRequest config "PUT" req w' = inr res ->
  uploadPartVerify res Http.StatusOK = None ->
  Http.Header res !! "Etag" = Some [quote ++ tag ++ quote] ->
  sentParts (eventsOf (uploadPartTask config bucket objectKey objectUploadID
                         cur objectData None) w)
  = [mkPartChannel cur
       (Part.mk 1 tag (Z.of_nat (List.length objectData))) None].
Proof.
  intros Hbuild Hexec Hverify Hetag.
  unfold eventsOf, run, startIn, uploadPartTask, partMessage, pBind, liftSt,
    exec, defer, emit, ret, closeResponse.
  cbv beta zeta. cbn [store trace deferred opened fst snd].
  rewrite Hbuild. cbn [store trace deferred opened fst snd].
  rewrite Hexec. cbn [store trace deferred opened fst snd].
  rewrite Hverify. cbn [store trace deferred opened fst snd Part.PartNumber Part.Size].
  assert (Hget : Http.headerGet (Http.Header res) "ETag" = quote ++ tag ++ quote).
  { unfold Http.headerGet.
    change (Http.CanonicalMIMEHeaderKey "ETag") with "Etag".
    rewrite Hetag. reflexivity. }
  rewrite Hget, unquote_quoted. reflexivity.
Qed.

End PartEntityTag.

Lemma verified_part_carries_unquoted_etag_witness :
  sentParts (eventsOf (uploadPartTask (env := Sample.env) Sample.config
                         "bucket" "s3verify-multipart-0" "upload-0" 0
                         Sample.payload None)
               (initialWorld (env := Sample.env)))
  = [mkPartChannel 0 (Part.mk 1 Sample.etag 5) None].
Proof.
  destruct (newUploadPartReq (env := Sample.env) Sample.config "bucket"
              "s3verify-multipart-0" "upload-0" 1 Sample.payload
              (initialWorld (env := Sample.env)))
    as [[w' [e|req]]|] eqn:Hb; try (vm_compute in Hb; discriminate).
  apply (verified_part_carries_unquoted_etag (env := Sample.env)
           Sample.config "bucket" "s3verify-multipart-0" "upload-0"
           Sample.etag 0 Sample.payload (initialWorld (env := Sample.env))
           w' req Sample.uploadResponse Hb).
  - reflexivity.
  - reflexivity.
  - reflexivity.
Defined.
